(** * xi2.org/x/xz: the Reader API (reader.go)

    A shallow embedding of the pull-reader of package xz: [NewReader],
    [Reader.decode], [Reader.Read], [Reader.Multistream] and
    [Reader.Reset], with the properties of the package's specification
    that concern them.

    The container decoder ([xzDecInit], [xzDecRun], [xzDecReset]) and
    the wrapped [io.Reader] are interfaces of this development: the
    Reader is verified against every implementation of them, and a small
    stored-stream decoder instantiates them for the examples. *)

From Stdlib Require Import ZArith Lia Bool.
From Stdlib Require Import Strings.Byte.
From stdpp Require Import base list strings.

Open Scope Z_scope.

(** ** Errors and return codes *)

(** Go's [error] values are compared by identity.  The seven values the
    package exports, [io.EOF], and any other value an upstream reader
    may return ([ErrForeign], told apart by its message). A nil [error]
    is [None] of [option error]. *)
Inductive error : Type :=
| ErrUnsupportedCheck
| ErrMemlimit
| ErrFormat
| ErrOptions
| ErrData
| ErrBuf
| ErrNilReader
| io_EOF
| ErrForeign (msg : string).

#[global] Instance error_eq_dec : EqDecision error.
Proof. solve_decision. Defined.

(** [xzRet], the return codes of the container decoder. *)
Inductive xzRet : Type :=
| xzOK
| xzStreamEnd
| xzUnsupportedCheck
| xzMemlimitError
| xzFormatError
| xzOptionsError
| xzDataError
| xzBufError.

#[global] Instance xzRet_eq_dec : EqDecision xzRet.
Proof. solve_decision. Defined.

(** ** Constants *)

Definition DefaultDictMax : Z := Z.shiftl 1 26.

Definition bufSize : Z := Z.shiftl 1 13.

(** ** Slices and Go's [int] *)

(** [len s] of a slice. *)
Definition len {A : Type} (s : list A) : Z := Z.of_nat (length s).

(** [s[i]]: [None] stands for Go's run-time panic (index out of range). *)
Definition index {A : Type} (s : list A) (i : Z) : option A :=
  if bool_decide (0 ≤ i) then s !! Z.to_nat i else None.

(** [s[i] = v], with the same bounds check. *)
Definition store {A : Type} (s : list A) (i : Z) (v : A) : option (list A) :=
  if bool_decide (0 ≤ i < len s) then Some (<[Z.to_nat i := v]> s) else None.

(** Go's [int] is taken at 64 bits; [x++] on an [int] wraps around. *)
Definition int_wrap (z : Z) : Z := (z + 2 ^ 63) `mod` 2 ^ 64 - 2 ^ 63.

Definition int_incr (z : Z) : Z := int_wrap (z + 1).

(** The number of zero bytes at the head of a slice. *)
Fixpoint leading_zeros (s : list byte) : nat :=
  match s with
  | c :: s' => if Byte.eqb c x00 then S (leading_zeros s') else O
  | [] => O
  end.

(** A computation that may panic. *)
Inductive result (A : Type) : Type :=
| Ok (a : A)
| Panic.

Arguments Ok {A} a.
Arguments Panic {A}.

Definition rbind {A B : Type} (m : result A) (k : A → result B) : result B :=
  match m with
  | Ok a => k a
  | Panic => Panic
  end.

Definition of_option {A : Type} (o : option A) : result A :=
  match o with
  | Some a => Ok a
  | None => Panic
  end.

Notation "x ←! m ; k" := (rbind m (fun x => k))
  (at level 100, m at next level, right associativity, only parsing).

(** ** The buffer pair [xzBuf] *)

Module xzBuf.

Record t : Type := mk {
  in_ : list byte;     (* in     []byte *)
  inPos : Z;           (* inPos  int    *)
  out : list byte;     (* out    []byte *)
  outPos : Z           (* outPos int    *)
}.

Definition set_in (v : list byte) (b : t) : t :=
  {| in_ := v; inPos := inPos b; out := out b; outPos := outPos b |}.

Definition set_inPos (v : Z) (b : t) : t :=
  {| in_ := in_ b; inPos := v; out := out b; outPos := outPos b |}.

Definition set_outPos (v : Z) (b : t) : t :=
  {| in_ := in_ b; inPos := inPos b; out := out b; outPos := v |}.

End xzBuf.

(** ** The two collaborators of the Reader *)

(** The wrapped [io.Reader].  [U] is the state of the upstream source;
    [io_Read u n] is one call [Read(buf)] with [len(buf) = n]: the bytes
    [buf[:rn]] it has written, its error, and the upstream state after
    the call.  The count [rn] it returns is the length of the data. *)
Class io_Reader (U : Type) : Type :=
  io_Read : U → Z → list byte * option error * U.

(** The container decoder of dec_xz.go, whose state type is [D]:
    [xzDecInit dictMax], [xzDecRun s b] (both arguments are pointers, so
    the call returns the updated decoder and buffer pair as well) and
    [xzDecReset s]. *)
Class xzDecoder (D : Type) : Type := {
  xzDecInit : Z → D;
  xzDecRun : D → xzBuf.t → xzRet * D * xzBuf.t;
  xzDecReset : D → D
}.

(** ** The Reader *)

Module Reader.

(** [type Reader struct].  The backing array [in [bufSize]byte] is not a
    field of the model: [buf.in] is always the slice [r.in[:rn]] of the
    last successful upstream read, held here by value.  The array is
    written only by an upstream read, which [Read] makes when every byte
    of [buf.in] has been consumed; a read that fails may leave other
    bytes in the array, under a slice that is replaced before [Read] or
    [decode] looks at it again. *)
Record t (U D : Type) : Type := mk {
  r : U;                 (* the wrapped io.Reader *)
  multistream : bool;    (* true if reader is in multistream mode *)
  rEOF : bool;           (* true after io.EOF received on r *)
  dEOF : bool;           (* true after decoder has completed *)
  padding : Z;           (* bytes of stream padding read (or -1) *)
  outPos : Z;            (* pos within buf.out of unwritten data *)
  buf : xzBuf.t;         (* decoder input/output buffers *)
  dec : D;               (* decoder state *)
  err : option error     (* the result of the last decoder call *)
}.

Arguments mk {U D}.
Arguments r {U D}.
Arguments multistream {U D}.
Arguments rEOF {U D}.
Arguments dEOF {U D}.
Arguments padding {U D}.
Arguments outPos {U D}.
Arguments buf {U D}.
Arguments dec {U D}.
Arguments err {U D}.

Section Setters.
Context {U D : Type}.
Implicit Type x : t U D.

Definition set_r (v : U) x : t U D :=
  mk v (multistream x) (rEOF x) (dEOF x) (padding x) (outPos x) (buf x) (dec x) (err x).

Definition set_multistream (v : bool) x : t U D :=
  mk (r x) v (rEOF x) (dEOF x) (padding x) (outPos x) (buf x) (dec x) (err x).

Definition set_rEOF (v : bool) x : t U D :=
  mk (r x) (multistream x) v (dEOF x) (padding x) (outPos x) (buf x) (dec x) (err x).

Definition set_dEOF (v : bool) x : t U D :=
  mk (r x) (multistream x) (rEOF x) v (padding x) (outPos x) (buf x) (dec x) (err x).

Definition set_padding (v : Z) x : t U D :=
  mk (r x) (multistream x) (rEOF x) (dEOF x) v (outPos x) (buf x) (dec x) (err x).

Definition set_outPos (v : Z) x : t U D :=
  mk (r x) (multistream x) (rEOF x) (dEOF x) (padding x) v (buf x) (dec x) (err x).

Definition set_buf (v : xzBuf.t) x : t U D :=
  mk (r x) (multistream x) (rEOF x) (dEOF x) (padding x) (outPos x) v (dec x) (err x).

Definition set_dec (v : D) x : t U D :=
  mk (r x) (multistream x) (rEOF x) (dEOF x) (padding x) (outPos x) (buf x) v (err x).

Definition set_err (v : option error) x : t U D :=
  mk (r x) (multistream x) (rEOF x) (dEOF x) (padding x) (outPos x) (buf x) (dec x) v.

End Setters.

End Reader.

(** ** The operations of reader.go *)

Section ReaderAPI.

Context {U D : Type} `{!io_Reader U} `{!xzDecoder D}.

(** [NewReader(r, dictMax)].  A nil interface value [r] is [None],
    [dictMax] is a [uint32], in the range of [0] to [2^32 - 1]; the
    result is the pair of Go's two results. *)
Definition NewReader (r : option U) (dictMax : Z)
  : option (Reader.t U D) * option error :=
  match r with
  | None => (None, Some ErrNilReader)
  | Some u =>
    let dictMax := if bool_decide (dictMax = 0) then DefaultDictMax else dictMax in
    (Some {| Reader.r := u;
             Reader.multistream := true;
             Reader.rEOF := false;
             Reader.dEOF := false;
             Reader.padding := -1;
             Reader.outPos := 0;
             Reader.buf := {| xzBuf.in_ := [];
                              xzBuf.inPos := 0;
                              xzBuf.out := replicate (Z.to_nat bufSize) x00;
                              xzBuf.outPos := 0 |};
             Reader.dec := xzDecInit dictMax;
             Reader.err := None |},
     None)
  end.

(** The loop of [decode] that reads all padding in the input buffer.
    Every turn needs [inPos < len(in)] and advances [inPos], so
    [len(in) - inPos] turns are all the loop can make.  [inPos++] stays
    below [len(in)] and cannot wrap; [padding++] has no such bound. *)
Fixpoint skipPadding (fuel : nat) (x : Reader.t U D) : result (Reader.t U D) :=
  match fuel with
  | O => Ok x
  | S fuel' =>
    let b := Reader.buf x in
    if bool_decide (xzBuf.inPos b < len (xzBuf.in_ b)) then
      c ←! of_option (index (xzBuf.in_ b) (xzBuf.inPos b));
      if Byte.eqb c x00 then
        skipPadding fuel'
          (Reader.set_padding (int_incr (Reader.padding x))
             (Reader.set_buf (xzBuf.set_inPos (xzBuf.inPos b + 1) b) x))
      else Ok x
    else Ok x
  end.

(** [func (r *Reader) decode() (ret xzRet)]. *)
Definition decode (x : Reader.t U D) : result (xzRet * Reader.t U D) :=
  if bool_decide (0 ≤ Reader.padding x) then
    let b := Reader.buf x in
    x ←! skipPadding (Z.to_nat (len (xzBuf.in_ b) - xzBuf.inPos b)) x;
    let b := Reader.buf x in
    if bool_decide (xzBuf.inPos b = len (xzBuf.in_ b)) && Reader.rEOF x then
      (* out of padding. no more input data available *)
      if bool_decide (Z.rem (Reader.padding x) 4 ≠ 0)
      then Ok (xzBufError, x)
      else Ok (xzStreamEnd, x)
    else if bool_decide (xzBuf.inPos b = len (xzBuf.in_ b)) then
      (* read more padding next loop iteration *)
      Ok (xzOK, x)
    else
      (* out of padding. more input data available *)
      if bool_decide (Z.rem (Reader.padding x) 4 ≠ 0)
      then Ok (xzDataError, x)
      else Ok (xzStreamEnd, Reader.set_dec (xzDecReset (Reader.dec x)) x)
  else
    let x := Reader.set_buf (xzBuf.set_outPos 0 (Reader.buf x)) x in
    let x := Reader.set_outPos 0 x in
    let '(ret, d, b) := xzDecRun (Reader.dec x) (Reader.buf x) in
    Ok (ret, Reader.set_buf b (Reader.set_dec d x)).

(** The variables of one [Read] call at the head of its [for] loop: the
    Reader, the caller's buffer [p], and the results [n] and [err]. *)
Record lstate : Type := LState {
  rd : Reader.t U D;
  p : list byte;
  n : Z;
  lerr : option error
}.

Definition set_lerr (v : option error) (s : lstate) : lstate :=
  LState (rd s) (p s) (n s) v.

(** The loop that copies [r.buf.out] to [p].  Every turn needs
    [n < len(p)] and advances [n]: [len(p) - n] turns are all it makes.
    [n++] and [r.outPos++] stay below [len(p)] and [buf.outPos], and
    cannot wrap. *)
Fixpoint copyOut (fuel : nat) (s : lstate) : result lstate :=
  match fuel with
  | O => Ok s
  | S fuel' =>
    let x := rd s in
    if bool_decide (Reader.outPos x < xzBuf.outPos (Reader.buf x) ∧ n s < len (p s)) then
      v ←! of_option (index (xzBuf.out (Reader.buf x)) (Reader.outPos x));
      p' ←! of_option (store (p s) (n s) v);
      copyOut fuel'
        (LState (Reader.set_outPos (Reader.outPos x + 1) x) p' (n s + 1) (lerr s))
    else Ok s
  end.

(** The [switch ret] of [Read]: the Reader and [err] after it. *)
Definition switchRet (ret : xzRet) (x : Reader.t U D) (e : option error)
  : Reader.t U D * option error :=
  match ret with
  | xzOK => (x, e)
  | xzStreamEnd =>
    if bool_decide (0 ≤ Reader.padding x) then
      let x := Reader.set_padding (-1) x in
      if negb (Reader.multistream x) || Reader.rEOF x
      then (Reader.set_dEOF true x, e)
      else (x, e)
    else (Reader.set_padding 0 x, e)
  | xzUnsupportedCheck => (x, Some ErrUnsupportedCheck)
  | xzMemlimitError => (x, Some ErrMemlimit)
  | xzFormatError => (x, Some ErrFormat)
  | xzOptionsError => (x, Some ErrOptions)
  | xzDataError => (x, Some ErrData)
  | xzBufError => (x, Some ErrBuf)
  end.

(** The part of the loop that reads more data from [r.r] if needed:
    [inl] is the Reader to go on with, [inr] the Reader and the read
    error to return.  [r.in[:rn]] panics when [rn] exceeds the array. *)
Definition refill (x : Reader.t U D) : result (Reader.t U D + Reader.t U D * error) :=
  let b := Reader.buf x in
  if bool_decide (xzBuf.inPos b = len (xzBuf.in_ b)) && negb (Reader.rEOF x) then
    let '(data, e, u) := io_Read (Reader.r x) bufSize in
    let x := Reader.set_r u x in
    match e with
    | Some e' =>
      if bool_decide (e' ≠ io_EOF) then Ok (inr (x, e'))
      else if bool_decide (len data ≤ bufSize)
      then Ok (inl (Reader.set_buf (xzBuf.set_inPos 0 (xzBuf.set_in data b))
                      (Reader.set_rEOF true x)))
      else Panic
    | None =>
      if bool_decide (len data ≤ bufSize)
      then Ok (inl (Reader.set_buf (xzBuf.set_inPos 0 (xzBuf.set_in data b)) x))
      else Panic
    end
  else Ok (inl x).

(** How a turn of the [for] loop of [Read] ends. *)
Inductive ctl : Type :=
| Continue (s : lstate)
| Break (s : lstate).

Definition ctl_state (c : ctl) : lstate :=
  match c with
  | Continue s => s
  | Break s => s
  end.

(** One turn of the [for] loop of [Read]. *)
Definition Read_iter (s : lstate) : result ctl :=
  (* copy r.buf.out -> p *)
  s ←! copyOut (Z.to_nat (len (p s) - n s)) s;
  let x := rd s in
  if bool_decide (Reader.outPos x < xzBuf.outPos (Reader.buf x) ∧ n s = len (p s)) then
    (* p full but output remaining *)
    Ok (Break (set_lerr None s))
  else if bool_decide (lerr s ≠ None) then
    (* the last call to the decoder ended with an error *)
    Ok (Break s)
  else if Reader.dEOF x then
    Ok (Break (set_lerr (Some io_EOF) s))
  else
    f ←! refill x;
    match f with
    | inr (x, e) => Ok (Break (LState x (p s) (n s) (Some e)))
    | inl x =>
      d ←! decode x;
      let '(x, e) := switchRet d.1 d.2 (lerr s) in
      (* save err *)
      Ok (Continue (LState (Reader.set_err e x) (p s) (n s) e))
    end.

(** The [for] loop, run for at most [fuel] turns: [Ok (Break s)] when
    the call has returned with the variables [s], [Ok (Continue s)] when
    it is still running. *)
Fixpoint Read_loop (fuel : nat) (s : lstate) : result ctl :=
  match fuel with
  | O => Ok (Continue s)
  | S fuel' =>
    c ←! Read_iter s;
    match c with
    | Continue s' => Read_loop fuel' s'
    | Break s' => Ok (Break s')
    end
  end.

(** [func (r *Reader) Read(p []byte) (n int, err error)]. *)
Definition Read (fuel : nat) (x : Reader.t U D) (p : list byte) : result ctl :=
  Read_loop fuel (LState x p 0 (Reader.err x)).

(** [func (r *Reader) Multistream(ok bool)]. *)
Definition Multistream (ok : bool) (x : Reader.t U D) : Reader.t U D :=
  Reader.set_multistream ok x.

(** [func (r *Reader) Reset() error]: the Reader after the call and the
    error returned. *)
Definition Reset (x : Reader.t U D) : Reader.t U D * option error :=
  if negb (Reader.dEOF x) then (x, None)
  else if Reader.rEOF x then (x, Some io_EOF)
  else (Reader.set_multistream true (Reader.set_dEOF false x), None).

End ReaderAPI.

(** ** The turns of the loop of [Read] *)

Section Turns.

Context {U D : Type} `{!io_Reader U} `{!xzDecoder D}.

(** The ways a turn of the loop can end. *)
Inductive turn (s : @lstate U D) : @ctl U D → Prop :=
| turn_full s1 :
    copyOut (Z.to_nat (len (p s) - n s)) s = Ok s1 →
    Reader.outPos (rd s1) < xzBuf.outPos (Reader.buf (rd s1)) →
    n s1 = len (p s1) →
    turn s (Break (set_lerr None s1))
| turn_err s1 e :
    copyOut (Z.to_nat (len (p s) - n s)) s = Ok s1 →
    xzBuf.outPos (Reader.buf (rd s1)) ≤ Reader.outPos (rd s1) ∨ n s1 ≠ len (p s1) →
    lerr s1 = Some e →
    turn s (Break s1)
| turn_eof s1 :
    copyOut (Z.to_nat (len (p s) - n s)) s = Ok s1 →
    xzBuf.outPos (Reader.buf (rd s1)) ≤ Reader.outPos (rd s1) ∨ n s1 ≠ len (p s1) →
    lerr s1 = None →
    Reader.dEOF (rd s1) = true →
    turn s (Break (set_lerr (Some io_EOF) s1))
| turn_upstream s1 x e :
    copyOut (Z.to_nat (len (p s) - n s)) s = Ok s1 →
    xzBuf.outPos (Reader.buf (rd s1)) ≤ Reader.outPos (rd s1) ∨ n s1 ≠ len (p s1) →
    lerr s1 = None →
    Reader.dEOF (rd s1) = false →
    refill (rd s1) = Ok (inr (x, e)) →
    turn s (Break (LState x (p s1) (n s1) (Some e)))
| turn_decode s1 x ret x' :
    copyOut (Z.to_nat (len (p s) - n s)) s = Ok s1 →
    xzBuf.outPos (Reader.buf (rd s1)) ≤ Reader.outPos (rd s1) ∨ n s1 ≠ len (p s1) →
    lerr s1 = None →
    Reader.dEOF (rd s1) = false →
    refill (rd s1) = Ok (inl x) →
    decode x = Ok (ret, x') →
    turn s (Continue (LState (Reader.set_err (switchRet ret x' None).2
                                (switchRet ret x' None).1)
                        (p s1) (n s1) (switchRet ret x' None).2)).

End Turns.

(** ** Well-formed states and the contracts of the collaborators *)

(** The comment on [xzBuf] in dec_xz.go: [inPos] must not exceed the
    input buffer size, [outPos] must not exceed the output buffer size. *)
Definition buf_ok (b : xzBuf.t) : Prop :=
  0 ≤ xzBuf.inPos b ≤ len (xzBuf.in_ b) ∧ 0 ≤ xzBuf.outPos b ≤ len (xzBuf.out b).

(** The same comment: only the contents of the output buffer from
    [out[outPos]] onward, and the variables [inPos] and [outPos], are
    modified by the XZ code; the positions only advance. *)
Definition xzDecRun_contract {D : Type} `{!xzDecoder D} : Prop :=
  ∀ (d : D) (b : xzBuf.t), buf_ok b →
    let b' := (xzDecRun d b).2 in
    xzBuf.in_ b' = xzBuf.in_ b ∧
    len (xzBuf.out b') = len (xzBuf.out b) ∧
    xzBuf.inPos b ≤ xzBuf.inPos b' ≤ len (xzBuf.in_ b) ∧
    xzBuf.outPos b ≤ xzBuf.outPos b' ≤ len (xzBuf.out b).

(** [io.Reader]: [Read(buf)] returns [0 <= rn <= len(buf)]. *)
Definition io_Read_contract {U : Type} `{!io_Reader U} : Prop :=
  ∀ (u : U) (k : Z), 0 ≤ k → len (io_Read u k).1.1 ≤ k.

Section States.

Context {U D : Type}.

(** The cursors of a Reader are in range. *)
Definition Inv (x : Reader.t U D) : Prop :=
  buf_ok (Reader.buf x) ∧
  0 ≤ Reader.outPos x ≤ xzBuf.outPos (Reader.buf x).

(** The decoded bytes not yet delivered: [buf.out[r.outPos:buf.outPos]]. *)
Definition pending (x : Reader.t U D) : list byte :=
  take (Z.to_nat (xzBuf.outPos (Reader.buf x) - Reader.outPos x))
       (drop (Z.to_nat (Reader.outPos x)) (xzBuf.out (Reader.buf x))).

(** The Reader once [k] pending bytes have been delivered. *)
Definition delivered (k : nat) (x : Reader.t U D) : Reader.t U D :=
  Reader.set_outPos (Reader.outPos x + Z.of_nat k) x.

(** The cursors of [x'] are those of [x], moved forward. *)
Definition advance (x x' : Reader.t U D) : Prop :=
  xzBuf.in_ (Reader.buf x') = xzBuf.in_ (Reader.buf x)
  ∧ xzBuf.inPos (Reader.buf x) ≤ xzBuf.inPos (Reader.buf x')
  ∧ Reader.outPos x ≤ Reader.outPos x'
  ∧ xzBuf.outPos (Reader.buf x) ≤ xzBuf.outPos (Reader.buf x').

(** The input buffer of [x], all consumed, is replaced by a new one. *)
Definition recycle_in (x x' : Reader.t U D) : Prop :=
  xzBuf.inPos (Reader.buf x) = len (xzBuf.in_ (Reader.buf x))
  ∧ xzBuf.inPos (Reader.buf x') = 0
  ∧ Reader.outPos x' = Reader.outPos x
  ∧ xzBuf.outPos (Reader.buf x') = xzBuf.outPos (Reader.buf x).

(** The output buffer of [x], all delivered, is filled again from its
    start by a run of the decoder, which moves the input cursor forward. *)
Definition recycle_out (x x' : Reader.t U D) : Prop :=
  Reader.outPos x = xzBuf.outPos (Reader.buf x)
  ∧ Reader.outPos x' = 0
  ∧ xzBuf.in_ (Reader.buf x') = xzBuf.in_ (Reader.buf x)
  ∧ xzBuf.inPos (Reader.buf x) ≤ xzBuf.inPos (Reader.buf x').

(** The Reader reports [e] once its pending bytes are delivered: it has
    recorded the error [e], or the decoder has finished and [e] is
    [io.EOF]. *)
Definition stopped (x : Reader.t U D) (e : error) : Prop :=
  Reader.err x = Some e
  ∨ (Reader.err x = None ∧ Reader.dEOF x = true ∧ e = io_EOF).

End States.

Section LoopStates.

Context {U D : Type}.

(** The variables of a [Read] call are in range. *)
Definition LInv (s : @lstate U D) : Prop :=
  Inv (rd s) ∧ 0 ≤ n s ≤ len (p s).

(** From [s] to [s'] the call has written [p] only in [p[n:n']]. *)
Definition writes_below (s s' : @lstate U D) : Prop :=
  len (p s') = len (p s)
  ∧ n s ≤ n s'
  ∧ take (Z.to_nat (n s)) (p s') = take (Z.to_nat (n s)) (p s)
  ∧ drop (Z.to_nat (n s')) (p s') = drop (Z.to_nat (n s')) (p s).

End LoopStates.

(** The Readers a program can come to hold: made by [NewReader], then
    used through [Read], [Multistream] and [Reset]. *)
Inductive reachable {U D : Type} `{!io_Reader U} `{!xzDecoder D}
  : Reader.t U D → Prop :=
| reach_NewReader (u : U) (dictMax : Z) x :
    NewReader (Some u) dictMax = (Some x, None) → reachable x
| reach_Read (fuel : nat) x (q : list byte) s :
    reachable x → Read fuel x q = Ok (Break s) → reachable (rd s)
| reach_Multistream (ok : bool) x :
    reachable x → reachable (Multistream ok x)
| reach_Reset x :
    reachable x → reachable (Reset x).1.

(** What a caller sees of one [Read] call: the bytes [p[:n]] and [err]. *)
Definition seen {U D : Type} (s : @lstate U D) : list byte * option error :=
  (take (Z.to_nat (n s)) (p s), lerr s).

(** Successive [Read] calls with the buffers [qs], each given [fuel]
    turns: what the caller sees of each, and the Reader after the last.
    [None] when a call panics or is still running. *)
Fixpoint Reads {U D : Type} `{!io_Reader U} `{!xzDecoder D}
  (fuel : nat) (x : Reader.t U D) (qs : list (list byte))
  : option (list (list byte * option error) * Reader.t U D) :=
  match qs with
  | [] => Some ([], x)
  | q :: qs' =>
    match Read fuel x q with
    | Ok (Break s) =>
      match Reads fuel (rd s) qs' with
      | Some (l, x') => Some (seen s :: l, x')
      | None => None
      end
    | _ => None
    end
  end.

(** Draining the bytes [pend] through buffers of the sizes of [qs],
    with the error [e] reported by the call that leaves nothing behind. *)
Fixpoint drain (e : error) (pend : list byte) (qs : list (list byte))
  : list (list byte * option error) :=
  match qs with
  | [] => []
  | q :: qs' =>
    (take (length q) pend,
     if bool_decide (length pend ≤ length q)%nat then Some e else None)
    :: drain e (drop (length q) pend) qs'
  end.

(** ** Instances for the examples *)

(** An upstream reader that plays back a list of calls: each entry is
    the data and the error of one [Read]; data that does not fit in the
    buffer is cut, and the rest is kept for the next call; past the end
    of the list it returns [(0, io.EOF)]. *)
Module Script.

Definition t : Type := list (list byte * option error).

#[global] Instance reader : io_Reader t :=
  fun u k =>
    match u with
    | [] => ([], Some io_EOF, [])
    | (data, e) :: u' =>
      if bool_decide (len data ≤ k) then (data, e, u')
      else (take (Z.to_nat k) data, None, (drop (Z.to_nat k) data, e) :: u')
    end.

End Script.

(** A decoder of a small stored-stream format, with the interface of
    the container decoder.  A stream is the magic byte [0xFD], then
    records: [0x01 b] emits the byte [b], [0x00] ends the stream; any
    other tag is corrupt data.  As in XZ Embedded, two calls in a row
    that neither consume nor produce give [xzBufError]. *)
Module Stored.

Inductive phase : Type :=
| PMagic
| PTag
| PLiteral
| PEnd.

Record t : Type := mk {
  dictMax : Z;
  ph : phase;
  allowBufError : bool
}.

Definition consume (b : xzBuf.t) : xzBuf.t :=
  xzBuf.set_inPos (xzBuf.inPos b + 1) b.

Definition emit (c : byte) (b : xzBuf.t) : xzBuf.t :=
  {| xzBuf.in_ := xzBuf.in_ b;
     xzBuf.inPos := xzBuf.inPos b;
     xzBuf.out := <[Z.to_nat (xzBuf.outPos b) := c]> (xzBuf.out b);
     xzBuf.outPos := xzBuf.outPos b + 1 |}.

Fixpoint main (fuel : nat) (f : phase) (b : xzBuf.t) : xzRet * phase * xzBuf.t :=
  match fuel with
  | O => (xzOK, f, b)
  | S fuel' =>
    match f with
    | PEnd => (xzStreamEnd, PEnd, b)
    | _ =>
      if bool_decide (0 ≤ xzBuf.inPos b) then
        match xzBuf.in_ b !! Z.to_nat (xzBuf.inPos b) with
        | None => (xzOK, f, b)
        | Some c =>
          match f with
          | PMagic =>
            if Byte.eqb c xfd then main fuel' PTag (consume b)
            else (xzFormatError, f, b)
          | PTag =>
            if Byte.eqb c x00 then (xzStreamEnd, PEnd, consume b)
            else if Byte.eqb c x01 then main fuel' PLiteral (consume b)
            else (xzDataError, f, b)
          | PLiteral =>
            if bool_decide (0 ≤ xzBuf.outPos b < len (xzBuf.out b))
            then main fuel' PTag (emit c (consume b))
            else (xzOK, f, b)
          | PEnd => (xzStreamEnd, PEnd, b)
          end
        end
      else (xzOK, f, b)
    end
  end.

Definition run (d : t) (b : xzBuf.t) : xzRet * t * xzBuf.t :=
  let '(ret, f, b') := main (length (xzBuf.in_ b)) (ph d) b in
  if bool_decide (ret = xzOK ∧ xzBuf.inPos b' = xzBuf.inPos b
                  ∧ xzBuf.outPos b' = xzBuf.outPos b)
  then (if allowBufError d then xzBufError else xzOK, mk (dictMax d) f true, b')
  else (ret, mk (dictMax d) f false, b').

#[global] Instance decoder : xzDecoder t := {
  xzDecInit := fun dictMax => mk dictMax PMagic false;
  xzDecRun := run;
  xzDecReset := fun d => mk (dictMax d) PMagic false
}.

(** The stream that decodes to [bs]. *)
Definition encode (bs : list byte) : list byte :=
  xfd :: flat_map (fun b => [x01; b]) bs ++ [x00].

(** The stream of ["Hi"]. *)
Definition hi : list byte := encode [x48; x69].

(** The Reader that [NewReader(u, 0)] returns on the script [u]. *)
Definition fresh (u : Script.t) : Reader.t Script.t t :=
  {| Reader.r := u;
     Reader.multistream := true;
     Reader.rEOF := false;
     Reader.dEOF := false;
     Reader.padding := -1;
     Reader.outPos := 0;
     Reader.buf := xzBuf.mk [] 0 (replicate (Z.to_nat bufSize) x00) 0;
     Reader.dec := xzDecInit DefaultDictMax;
     Reader.err := None |}.

End Stored.

(** The caller's buffer of the examples: eight bytes. *)
Definition buf8 : list byte := replicate 8 x00.

(** ** Slices *)

Lemma len_nonneg {A : Type} (s : list A) : 0 ≤ len s.
Proof. unfold len. lia. Qed.

Lemma index_Some {A : Type} (s : list A) (i : Z) (v : A) :
  0 ≤ i → s !! Z.to_nat i = Some v → index s i = Some v.
Proof. intros Hi Hv. unfold index. by rewrite bool_decide_true. Qed.

Lemma store_Some {A : Type} (s : list A) (i : Z) (v : A) :
  0 ≤ i < len s → store s i v = Some (<[Z.to_nat i := v]> s).
Proof. intros Hi. unfold store. by rewrite bool_decide_true. Qed.

Lemma int_incr_small (z : Z) : - 2 ^ 63 ≤ z + 1 < 2 ^ 63 → int_incr z = z + 1.
Proof.
  intros Hz. unfold int_incr, int_wrap.
  rewrite Z.mod_small; lia.
Qed.

Section Pending.

Context {U D : Type}.
Implicit Type x : Reader.t U D.

Lemma delivered_0 x : delivered 0 x = x.
Proof. destruct x. unfold delivered, Reader.set_outPos. simpl. f_equal. lia. Qed.

Lemma delivered_delivered (j k : nat) x :
  delivered j (delivered k x) = delivered (k + j) x.
Proof. unfold delivered, Reader.set_outPos. simpl. f_equal. lia. Qed.

Lemma pending_length x :
  0 ≤ Reader.outPos x →
  xzBuf.outPos (Reader.buf x) ≤ len (xzBuf.out (Reader.buf x)) →
  length (pending x)
  = Z.to_nat (xzBuf.outPos (Reader.buf x) - Reader.outPos x).
Proof.
  intros H0 H1. unfold pending, len in *.
  rewrite length_take, length_drop. lia.
Qed.

Lemma pending_nil x :
  xzBuf.outPos (Reader.buf x) ≤ Reader.outPos x → pending x = [].
Proof.
  intros H. unfold pending.
  replace (Z.to_nat _) with 0%nat by lia. apply take_0.
Qed.

Lemma pending_delivered (k : nat) x :
  0 ≤ Reader.outPos x →
  pending (delivered k x) = drop k (pending x).
Proof.
  intros H0. unfold pending, delivered. simpl.
  rewrite skipn_firstn_comm, drop_drop.
  f_equal; [lia | f_equal; lia].
Qed.

Lemma pending_cons x :
  0 ≤ Reader.outPos x < xzBuf.outPos (Reader.buf x) →
  xzBuf.outPos (Reader.buf x) ≤ len (xzBuf.out (Reader.buf x)) →
  ∃ v, index (xzBuf.out (Reader.buf x)) (Reader.outPos x) = Some v
       ∧ pending x = v :: pending (delivered 1 x).
Proof.
  intros H0 H1.
  destruct (lookup_lt_is_Some_2 (xzBuf.out (Reader.buf x))
              (Z.to_nat (Reader.outPos x))) as [v Hv].
  { unfold len in H1. lia. }
  exists v. split; [apply index_Some; [lia | done] |].
  rewrite pending_delivered by lia.
  unfold pending. rewrite (drop_S _ _ _ Hv).
  replace (Z.to_nat _) with (S (Z.to_nat (xzBuf.outPos (Reader.buf x) - Reader.outPos x - 1))) by lia.
  simpl. by rewrite drop_0.
Qed.

End Pending.

Section Copy.

Context {U D : Type} `{!io_Reader U} `{!xzDecoder D}.
Implicit Type x : Reader.t U D.
Implicit Type s : @lstate U D.

Lemma take_S_insert (q : list byte) (m : nat) (v : byte) :
  (m < length q)%nat → take (S m) (<[m := v]> q) = take m q ++ [v].
Proof.
  intros Hm.
  rewrite (take_S_r _ _ v) by (by apply list_lookup_insert_eq).
  by rewrite take_insert_ge.
Qed.

(** The copy loop delivers as many pending bytes as fit in [p]. *)
Lemma copyOut_spec (fuel : nat) s :
  0 ≤ Reader.outPos (rd s) →
  xzBuf.outPos (Reader.buf (rd s)) ≤ len (xzBuf.out (Reader.buf (rd s))) →
  0 ≤ n s →
  let k := (fuel `min` (length (pending (rd s))
                         `min` Z.to_nat (len (p s) - n s)))%nat in
  copyOut fuel s
  = Ok (LState (delivered k (rd s))
          (take (Z.to_nat (n s)) (p s) ++ take k (pending (rd s))
             ++ drop (Z.to_nat (n s) + k) (p s))
          (n s + Z.of_nat k) (lerr s)).
Proof.
  revert s. induction fuel as [|fuel IH]; intros s Ho Hb Hn k.
  - subst k. simpl. destruct s as [x q m e]. simpl in *.
    rewrite delivered_0, Nat.add_0_r, take_drop. do 2 f_equal. lia.
  - simpl. case_bool_decide as Hc.
    + destruct Hc as [Hc1 Hc2].
      destruct (pending_cons (rd s)) as (v & Hv & Hp); [lia | lia |].
      rewrite Hv. simpl.
      rewrite store_Some by lia. simpl.
      change (Reader.set_outPos (Reader.outPos (rd s) + 1) (rd s))
        with (delivered 1 (rd s)).
      rewrite IH; simpl; [| lia | done | lia].
      assert (Hlen : len (<[Z.to_nat (n s) := v]> (p s)) = len (p s))
        by (unfold len; by rewrite length_insert).
      rewrite Hlen.
      set (k' := (fuel `min` (length (pending (delivered 1 (rd s)))
                    `min` Z.to_nat (len (p s) - (n s + 1))))%nat).
      assert (Hk : k = S k').
      { subst k k'. rewrite Hp. simpl length. lia. }
      rewrite Hk, Hp, delivered_delivered. simpl take.
      replace (Z.to_nat (n s + 1)) with (S (Z.to_nat (n s))) by lia.
      rewrite take_S_insert by (unfold len in Hc2; lia).
      rewrite drop_insert_lt by lia.
      rewrite <- app_assoc. simpl.
      do 2 f_equal; [| lia]. rewrite Nat.add_succ_r. done.
    + assert (Hk : k = 0%nat).
      { subst k. rewrite pending_length by lia. lia. }
      rewrite Hk. destruct s as [x q m e]. simpl in *.
      rewrite delivered_0, Nat.add_0_r, take_drop. do 2 f_equal. lia.
Qed.

End Copy.

Section Loop.

Context {U D : Type} `{!io_Reader U} `{!xzDecoder D}.
Implicit Type x : Reader.t U D.
Implicit Type s : @lstate U D.

(** What the copy loop leaves alone, whatever the state it starts in. *)
Lemma copyOut_frame (fuel : nat) s s' :
  copyOut fuel s = Ok s' →
  lerr s' = lerr s
  ∧ rd s' = Reader.set_outPos (Reader.outPos (rd s')) (rd s)
  ∧ len (p s') = len (p s)
  ∧ (n s ≤ len (p s) → n s' ≤ len (p s'))
  ∧ (len (p s) - n s ≤ Z.of_nat fuel →
     ¬ (Reader.outPos (rd s') < xzBuf.outPos (Reader.buf (rd s'))
        ∧ n s' < len (p s'))).
Proof.
  revert s. induction fuel as [|fuel IH]; intros s Hc; simpl in Hc.
  - injection Hc as <-. repeat split; try done.
    + by destruct (rd s).
    + lia.
  - case_bool_decide as Hd.
    + destruct (index _ _) as [v|]; [simpl in Hc | done].
      unfold store in Hc. case_bool_decide as Hs; [simpl in Hc | done].
      apply IH in Hc as (H1 & H2 & H3 & H4 & H5). simpl in *.
      assert (Hlen : len (<[Z.to_nat (n s) := v]> (p s)) = len (p s))
        by (unfold len; by rewrite length_insert).
      rewrite Hlen in *.
      repeat split; try done; lia.
    + injection Hc as <-. repeat split; try done.
      by destruct (rd s).
Qed.

Lemma Read_iter_turn s c : Read_iter s = Ok c ↔ turn s c.
Proof.
  split.
  - unfold Read_iter. intros Hc.
    destruct (copyOut _ s) as [s1|] eqn:Hcopy; [simpl in Hc | done].
    case_bool_decide as Hfull.
    { injection Hc as <-. destruct Hfull. by apply turn_full. }
    assert (Hnf : xzBuf.outPos (Reader.buf (rd s1)) ≤ Reader.outPos (rd s1)
                  ∨ n s1 ≠ len (p s1)) by lia.
    case_bool_decide as He.
    { injection Hc as <-. destruct (lerr s1) as [e|] eqn:Hl; [| done].
      by eapply turn_err. }
    assert (Hl : lerr s1 = None) by (by destruct (lerr s1); [destruct He|]).
    destruct (Reader.dEOF (rd s1)) eqn:HdEOF.
    { injection Hc as <-. by apply turn_eof. }
    destruct (refill (rd s1)) as [[x|[x e]]|] eqn:Hf; [simpl in Hc..| done].
    + destruct (decode x) as [[ret x']|] eqn:Hd; [simpl in Hc | done].
      rewrite Hl in Hc.
      destruct (switchRet ret x' None) as [x2 e2] eqn:Hsw.
      injection Hc as <-.
      replace x2 with (switchRet ret x' None).1 by (by rewrite Hsw).
      replace e2 with (switchRet ret x' None).2 by (by rewrite Hsw).
      by eapply turn_decode.
    + injection Hc as <-. by apply turn_upstream.
  - intros Ht. unfold Read_iter.
    destruct Ht as [s1 Hc H1 H2 | s1 e Hc H1 H2 | s1 Hc H1 H2 H3
                   | s1 x e Hc H1 H2 H3 H4 | s1 x ret x' Hc H1 H2 H3 H4 H5];
      rewrite Hc; simpl.
    + by rewrite bool_decide_true.
    + rewrite bool_decide_false by lia.
      rewrite bool_decide_true; [done | by rewrite H2].
    + rewrite bool_decide_false by lia.
      rewrite bool_decide_false; [| by rewrite H2; intros []].
      by rewrite H3.
    + rewrite bool_decide_false by lia.
      rewrite bool_decide_false; [| by rewrite H2; intros []].
      by rewrite H3, H4.
    + rewrite bool_decide_false by lia.
      rewrite bool_decide_false; [| by rewrite H2; intros []].
      rewrite H3, H4. simpl. rewrite H5. simpl. rewrite H2.
      by destruct (switchRet ret x' None).
Qed.

End Loop.

(** ** Recorded errors are sticky (claim C1) *)

Section Sticky.

Context {U D : Type} `{!io_Reader U} `{!xzDecoder D}.
Implicit Type x : Reader.t U D.
Implicit Type s : @lstate U D.

(** A failed upstream read: the Reader only moves its upstream on. *)
Lemma refill_inr x x' e :
  refill x = Ok (inr (x', e)) →
  xzBuf.inPos (Reader.buf x) = len (xzBuf.in_ (Reader.buf x))
  ∧ Reader.rEOF x = false
  ∧ e ≠ io_EOF
  ∧ ∃ data u, io_Read (Reader.r x) bufSize = (data, Some e, u)
              ∧ x' = Reader.set_r u x.
Proof.
  unfold refill. intros Hf.
  case_bool_decide as Hin; simpl in Hf; [| done].
  destruct (Reader.rEOF x); simpl in Hf; [done |].
  destruct (io_Read (Reader.r x) bufSize) as [[data oe] u] eqn:Hr.
  destruct oe as [e'|].
  - case_bool_decide as He.
    + injection Hf as <- <-. repeat split; try done. by exists data, u.
    + by case_bool_decide.
  - by case_bool_decide.
Qed.

(** A call that returns a recorded error other than [io.EOF] has
    delivered every decoded byte. *)
Lemma Read_loop_recorded (fuel : nat) s s' e :
  lerr s = Reader.err (rd s) →
  n s ≤ len (p s) →
  Read_loop fuel s = Ok (Break s') →
  lerr s' = Some e →
  e ≠ io_EOF →
  Reader.err (rd s') = Some e →
  xzBuf.outPos (Reader.buf (rd s')) ≤ Reader.outPos (rd s').
Proof.
  revert s. induction fuel as [|fuel IH]; intros s Hle Hn Hl He Hne Hrec;
    simpl in Hl; [done |].
  destruct (Read_iter s) as [c|] eqn:Hit; [simpl in Hl | done].
  apply Read_iter_turn in Hit.
  destruct Hit as [s1 Hc H1 H2 | s1 e1 Hc H1 H2 | s1 Hc H1 H2 H3
                  | s1 x e1 Hc H1 H2 H3 H4 | s1 x ret x' Hc H1 H2 H3 H4 H5].
  - injection Hl as <-. done.
  - injection Hl as <-.
    apply copyOut_frame in Hc as (_ & _ & _ & Hn' & Hex).
    specialize (Hn' Hn). lia.
  - injection Hl as <-. simpl in He. congruence.
  - injection Hl as <-. simpl in *.
    apply refill_inr in H4 as (_ & _ & _ & data & u & _ & ->).
    apply copyOut_frame in Hc as (Hl1 & Hrd & _).
    rewrite Hrd in Hrec. simpl in Hrec. congruence.
  - eapply IH; [| | exact Hl | done..]; simpl; [done |].
    apply copyOut_frame in Hc as (_ & _ & _ & Hn' & _). auto.
Qed.

(** An error other than [io.EOF] that a call returns is either the
    recorded one, or the error of an upstream read of its last turn,
    which is not recorded. *)
Lemma Read_loop_error_origin (fuel : nat) s s' e :
  lerr s = Reader.err (rd s) →
  Read_loop fuel s = Ok (Break s') →
  lerr s' = Some e →
  e ≠ io_EOF →
  Reader.err (rd s') = Some e
  ∨ (Reader.err (rd s') = None
     ∧ ∃ x1 data u, io_Read (Reader.r x1) bufSize = (data, Some e, u)
                    ∧ rd s' = Reader.set_r u x1).
Proof.
  revert s. induction fuel as [|fuel IH]; intros s Hle Hl He Hne;
    simpl in Hl; [done |].
  destruct (Read_iter s) as [c|] eqn:Hit; [simpl in Hl | done].
  apply Read_iter_turn in Hit.
  destruct Hit as [s1 Hc H1 H2 | s1 e1 Hc H1 H2 | s1 Hc H1 H2 H3
                  | s1 x e1 Hc H1 H2 H3 H4 | s1 x ret x' Hc H1 H2 H3 H4 H5].
  - injection Hl as <-. done.
  - injection Hl as <-. left.
    apply copyOut_frame in Hc as (Hl1 & Hrd & _).
    rewrite Hrd. simpl. congruence.
  - injection Hl as <-. simpl in He. congruence.
  - injection Hl as <-. simpl in *. injection He as ->. right.
    apply refill_inr in H4 as (_ & _ & _ & data & u & Hread & ->).
    apply copyOut_frame in Hc as (Hl1 & Hrd & _).
    split.
    + rewrite Hrd. simpl. congruence.
    + by exists (rd s1), data, u.
  - by eapply IH; [| exact Hl | ..].
Qed.

(** With a recorded error and nothing pending, [Read] does nothing. *)
Lemma Read_recorded_idle (fuel : nat) x (q : list byte) e :
  Reader.err x = Some e →
  xzBuf.outPos (Reader.buf x) ≤ Reader.outPos x →
  Read (S fuel) x q = Ok (Break (LState x q 0 (Some e))).
Proof.
  intros He Hp. unfold Read. simpl.
  assert (Hc : ∀ k, copyOut k (LState x q 0 (Reader.err x))
                    = Ok (LState x q 0 (Reader.err x))).
  { intros [|k]; [done |]. simpl. by rewrite bool_decide_false by lia. }
  unfold Read_iter. rewrite Hc. simpl.
  rewrite bool_decide_false by lia.
  rewrite He. by rewrite bool_decide_true.
Qed.

(** C1 (amended).  Once a [Read] call has returned an error other than
    [io.EOF] that the Reader has recorded in [r.err] (an error of the
    decoder), every later [Read] call returns zero bytes and the same
    error, and leaves the Reader, the upstream and the caller's buffer
    as they are.  Errors of the upstream reader are returned without
    being recorded, and are not covered. *)
Theorem recorded_error_is_sticky (fuel : nat) x (q : list byte) s' e :
  Read fuel x q = Ok (Break s') →
  lerr s' = Some e →
  e ≠ io_EOF →
  Reader.err (rd s') = Some e →
  (∀ (fuel' : nat) (q' : list byte),
     Read (S fuel') (rd s') q' = Ok (Break (LState (rd s') q' 0 (Some e))))
  ∧ (∀ (fuel' : nat) (qs : list (list byte)),
       Reads (S fuel') (rd s') qs
       = Some (map (λ _, ([], Some e)) qs, rd s')).
Proof.
  intros Hr Hl Hne Hrec.
  assert (Hidle : xzBuf.outPos (Reader.buf (rd s')) ≤ Reader.outPos (rd s')).
  { eapply (Read_loop_recorded fuel (LState x q 0 (Reader.err x))); eauto.
    simpl. apply len_nonneg. }
  assert (H1 : ∀ (fuel' : nat) (q' : list byte),
             Read (S fuel') (rd s') q' = Ok (Break (LState (rd s') q' 0 (Some e))))
    by (intros; by apply Read_recorded_idle).
  split; [exact H1 |].
  intros fuel' qs. induction qs as [|q' qs IH]; [done |].
  cbn [Reads]. rewrite H1. cbn [rd]. rewrite IH. done.
Qed.

End Sticky.

(** ** Draining the pending bytes (claims C2 and C5) *)

Section Drain.

Context {U D : Type} `{!io_Reader U} `{!xzDecoder D}.
Implicit Type x : Reader.t U D.
Implicit Type s : @lstate U D.

Lemma Inv_delivered (k : nat) x :
  Inv x → (k ≤ length (pending x))%nat → Inv (delivered k x).
Proof.
  intros [Hb Ho] Hk. destruct Hb as [Hi Hout].
  rewrite pending_length in Hk by lia.
  unfold Inv, delivered, buf_ok. simpl. lia.
Qed.

Lemma stopped_delivered (k : nat) x e : stopped x e → stopped (delivered k x) e.
Proof. by destruct x. Qed.

(** A call on a stopped Reader is one turn: it delivers what fits in
    the buffer, and reports [e] if nothing is left behind. *)
Lemma Read_loop_drain (fuel : nat) s e :
  Inv (rd s) →
  0 ≤ n s ≤ len (p s) →
  lerr s = Reader.err (rd s) →
  stopped (rd s) e →
  let pend := pending (rd s) in
  let room := Z.to_nat (len (p s) - n s) in
  let k := (length pend `min` room)%nat in
  Read_loop (S fuel) s
  = Ok (Break (LState (delivered k (rd s))
                 (take (Z.to_nat (n s)) (p s) ++ take k pend
                    ++ drop (Z.to_nat (n s) + k) (p s))
                 (n s + Z.of_nat k)
                 (if bool_decide (length pend ≤ room)%nat then Some e else None))).
Proof.
  intros [[Hi Hout] Ho] Hn Hle Hst pend room k.
  assert (Hpl : length pend = Z.to_nat (xzBuf.outPos (Reader.buf (rd s))
                                        - Reader.outPos (rd s)))
    by (apply pending_length; lia).
  cbn [Read_loop]. unfold Read_iter.
  rewrite copyOut_spec by lia.
  fold pend. fold room.
  replace (room `min` (length pend `min` room))%nat with k by lia.
  cbn [rbind rd p n lerr].
  assert (Hlen : len (take (Z.to_nat (n s)) (p s) ++ take k pend
                        ++ drop (Z.to_nat (n s) + k) (p s)) = len (p s)).
  { unfold len in *. rewrite !length_app, !length_take, length_drop. lia. }
  rewrite Hlen.
  change (Reader.outPos (delivered k (rd s)))
    with (Reader.outPos (rd s) + Z.of_nat k).
  change (Reader.buf (delivered k (rd s))) with (Reader.buf (rd s)).
  change (Reader.dEOF (delivered k (rd s))) with (Reader.dEOF (rd s)).
  destruct (decide (length pend ≤ room)%nat) as [Hroom | Hroom].
  - rewrite (bool_decide_true (length pend ≤ room)%nat) by done.
    rewrite bool_decide_false by lia.
    destruct Hst as [He | (He & Hd & ->)]; rewrite Hle, He.
    + by rewrite bool_decide_true.
    + rewrite bool_decide_false by (by intros []).
      by rewrite Hd.
  - rewrite (bool_decide_false (length pend ≤ room)%nat) by done.
    rewrite bool_decide_true by (unfold len in *; lia). done.
Qed.

(** The same for a whole call. *)
Lemma Read_drain (fuel : nat) x (q : list byte) e :
  Inv x →
  stopped x e →
  let k := (length (pending x) `min` length q)%nat in
  Read (S fuel) x q
  = Ok (Break (LState (delivered k x) (take k (pending x) ++ drop k q)
                 (Z.of_nat k)
                 (if bool_decide (length (pending x) ≤ length q)%nat
                  then Some e else None))).
Proof.
  intros HI Hst k. unfold Read.
  rewrite (Read_loop_drain fuel _ e); cbn [rd p n lerr]; try done.
  - unfold len. rewrite Z.sub_0_r, Nat2Z.id. fold k. done.
  - pose proof (len_nonneg q). lia.
Qed.

(** Successive calls on a stopped Reader drain the pending bytes. *)
Lemma Reads_drain (fuel : nat) (qs : list (list byte)) x e :
  Inv x →
  stopped x e →
  ∃ j : nat, Reads (S fuel) x qs = Some (drain e (pending x) qs, delivered j x).
Proof.
  revert x. induction qs as [|q qs IH]; intros x HI Hst.
  - exists 0%nat. by rewrite delivered_0.
  - cbn [Reads drain]. rewrite (Read_drain fuel x q e) by done.
    set (k := (length (pending x) `min` length q)%nat).
    cbn [rd].
    destruct (IH (delivered k x)) as [j Hj].
    { apply Inv_delivered; [done | lia]. }
    { by apply stopped_delivered. }
    rewrite Hj. exists (k + j)%nat.
    rewrite delivered_delivered.
    destruct HI as [_ Ho].
    rewrite pending_delivered by lia.
    unfold seen. cbn [n p lerr]. rewrite Nat2Z.id.
    rewrite take_app_length' by (rewrite length_take; lia).
    assert (Ht : take k (pending x) = take (length q) (pending x)).
    { subst k. destruct (decide (length (pending x) ≤ length q)%nat).
      - rewrite !take_ge; [done | lia | lia].
      - f_equal. lia. }
    assert (Hd : drop k (pending x) = drop (length q) (pending x)).
    { subst k. destruct (decide (length (pending x) ≤ length q)%nat).
      - rewrite !drop_ge; [done | lia | lia].
      - f_equal. lia. }
    by rewrite Ht, Hd.
Qed.

(** What [drain] delivers up to a call is a prefix of the pending
    bytes, and all of them once a call reports the error. *)
Lemma drain_prefix e (qs : list (list byte)) (pend : list byte) (i : nat) :
  ∃ rest, concat (take i (drain e pend qs)).*1 ++ rest = pend.
Proof.
  revert pend i. induction qs as [|q qs IH]; intros pend i.
  - exists pend. simpl. by rewrite take_nil.
  - destruct i as [|i]; [by exists pend |].
    destruct (IH (drop (length q) pend) i) as [rest Hrest].
    exists rest.
    change ((take (length q) pend
             ++ concat (take i (drain e (drop (length q) pend) qs)).*1) ++ rest
            = pend).
    rewrite <- app_assoc, Hrest. apply take_drop.
Qed.

Lemma drain_complete e (qs : list (list byte)) (pend : list byte) (i : nat) d :
  drain e pend qs !! i = Some (d, Some e) →
  concat (take (S i) (drain e pend qs)).*1 = pend.
Proof.
  revert pend i. induction qs as [|q qs IH]; intros pend i Hi; [done |].
  destruct i as [|i].
  - simpl in *. case_bool_decide as Hq; [| done].
    rewrite app_nil_r. by apply take_ge.
  - change (drain e (drop (length q) pend) qs !! i = Some (d, Some e)) in Hi.
    apply IH in Hi.
    change (take (length q) pend
            ++ concat (take (S i) (drain e (drop (length q) pend) qs)).*1 = pend).
    rewrite Hi. apply take_drop.
Qed.

(** No call reports the error while bytes are left behind. *)
Lemma drain_status e (qs : list (list byte)) (pend : list byte) (i : nat) d st :
  drain e pend qs !! i = Some (d, st) →
  st = None ∨ st = Some e.
Proof.
  revert pend i. induction qs as [|q qs IH]; intros pend i Hi; [done |].
  destruct i as [|i].
  - simpl in Hi. injection Hi as _ <-. case_bool_decide; auto.
  - by apply (IH (drop (length q) pend) i).
Qed.

End Drain.

(** ** The stages of a turn keep the cursors in range (claim C9) *)

Section Stages.

Context {U D : Type} `{!io_Reader U} `{!xzDecoder D}.
Implicit Type x : Reader.t U D.
Implicit Type s : @lstate U D.

Lemma leading_zeros_le (l : list byte) : (leading_zeros l ≤ length l)%nat.
Proof.
  induction l as [|c l IH]; simpl; [lia |].
  destruct (Byte.eqb c x00); lia.
Qed.

(** The padding loop stops at the first byte that is not zero, or at
    the end of the input buffer. *)
Lemma skipPadding_spec (fuel : nat) x :
  0 ≤ xzBuf.inPos (Reader.buf x) →
  let j := (fuel `min` leading_zeros
              (drop (Z.to_nat (xzBuf.inPos (Reader.buf x)))
                 (xzBuf.in_ (Reader.buf x))))%nat in
  skipPadding fuel x
  = Ok (Reader.set_padding (Nat.iter j int_incr (Reader.padding x))
          (Reader.set_buf
             (xzBuf.set_inPos (xzBuf.inPos (Reader.buf x) + Z.of_nat j)
                (Reader.buf x)) x)).
Proof.
  revert x. induction fuel as [|fuel IH]; intros x Hi j.
  - subst j. simpl. destruct x as [? ? ? ? ? ? [? ? ? ?] ? ?]. simpl.
    unfold Reader.set_padding, Reader.set_buf, xzBuf.set_inPos. simpl.
    do 3 f_equal. lia.
  - simpl.
    destruct (drop (Z.to_nat (xzBuf.inPos (Reader.buf x)))
                (xzBuf.in_ (Reader.buf x))) as [|c l] eqn:Hd.
    + assert (Hlen : len (xzBuf.in_ (Reader.buf x)) ≤ xzBuf.inPos (Reader.buf x)).
      { apply (f_equal length) in Hd. rewrite length_drop in Hd.
        simpl in Hd. unfold len. lia. }
      rewrite bool_decide_false by lia.
      subst j. simpl. rewrite ?Nat.min_0_r.
      destruct x as [? ? ? ? ? ? [? ? ? ?] ? ?]. simpl.
      unfold Reader.set_padding, Reader.set_buf, xzBuf.set_inPos. simpl.
      do 3 f_equal. lia.
    + assert (Hc : xzBuf.in_ (Reader.buf x)
                     !! Z.to_nat (xzBuf.inPos (Reader.buf x)) = Some c).
      { rewrite <- (Nat.add_0_r (Z.to_nat _)), <- lookup_drop. by rewrite Hd. }
      assert (Hlt : xzBuf.inPos (Reader.buf x) < len (xzBuf.in_ (Reader.buf x))).
      { apply lookup_lt_Some in Hc. unfold len. lia. }
      rewrite bool_decide_true by done.
      rewrite (index_Some _ _ c) by done. simpl.
      subst j. simpl leading_zeros.
      destruct (Byte.eqb c x00) eqn:Hz.
      * rewrite IH by (simpl; lia). simpl.
        replace (Z.to_nat (xzBuf.inPos (Reader.buf x) + 1))
          with (S (Z.to_nat (xzBuf.inPos (Reader.buf x)))) by lia.
        rewrite (drop_S _ _ _ Hc) in Hd. injection Hd as Hd.
        rewrite Hd.
        unfold Reader.set_padding, Reader.set_buf, xzBuf.set_inPos. simpl.
        rewrite <- Nat.iter_succ_r. simpl.
        do 3 f_equal. lia.
      * rewrite ?Nat.min_0_r.
        destruct x as [? ? ? ? ? ? [? ? ? ?] ? ?]. simpl.
        unfold Reader.set_padding, Reader.set_buf, xzBuf.set_inPos. simpl.
        do 3 f_equal. lia.
Qed.

Lemma iter_int_incr (k : nat) (z : Z) :
  - 2 ^ 63 ≤ z → z + Z.of_nat k < 2 ^ 63 → Nat.iter k int_incr z = z + Z.of_nat k.
Proof.
  induction k as [|k IH]; intros Hlo Hhi; simpl; [lia |].
  rewrite IH by lia. rewrite int_incr_small; lia.
Qed.

(** The Reader after the padding loop of [decode]. *)
Lemma decode_padding x :
  0 ≤ Reader.padding x →
  0 ≤ xzBuf.inPos (Reader.buf x) →
  let b := Reader.buf x in
  let z := leading_zeros (drop (Z.to_nat (xzBuf.inPos b)) (xzBuf.in_ b)) in
  let x1 := Reader.set_padding (Nat.iter z int_incr (Reader.padding x))
              (Reader.set_buf (xzBuf.set_inPos (xzBuf.inPos b + Z.of_nat z) b) x) in
  decode x
  = Ok (if bool_decide (xzBuf.inPos b + Z.of_nat z = len (xzBuf.in_ b)) && Reader.rEOF x
        then (if bool_decide (Z.rem (Reader.padding x1) 4 ≠ 0)
              then xzBufError else xzStreamEnd, x1)
        else if bool_decide (xzBuf.inPos b + Z.of_nat z = len (xzBuf.in_ b))
        then (xzOK, x1)
        else if bool_decide (Z.rem (Reader.padding x1) 4 ≠ 0)
        then (xzDataError, x1)
        else (xzStreamEnd, Reader.set_dec (xzDecReset (Reader.dec x)) x1)).
Proof.
  intros Hp Hi b z x1. unfold decode.
  rewrite bool_decide_true by done.
  rewrite skipPadding_spec by done.
  pose proof (leading_zeros_le (drop (Z.to_nat (xzBuf.inPos b)) (xzBuf.in_ b))) as Hz.
  fold b in Hz |- *. fold z in Hz |- *. rewrite length_drop in Hz.
  replace (Z.to_nat (len (xzBuf.in_ b) - xzBuf.inPos b) `min` z)%nat
    with z by (unfold len; lia).
  fold x1. cbn [rbind].
  change (xzBuf.inPos (Reader.buf x1)) with (xzBuf.inPos b + Z.of_nat z).
  change (xzBuf.in_ (Reader.buf x1)) with (xzBuf.in_ b).
  change (Reader.rEOF x1) with (Reader.rEOF x).
  change (Reader.dec x1) with (Reader.dec x).
  repeat case_bool_decide; destruct (Reader.rEOF x); simpl; done.
Qed.

(** Padding leaves the cursors in range and only moves the input
    cursor forward. *)
Lemma decode_padding_Inv x :
  0 ≤ Reader.padding x →
  Inv x →
  ∃ ret x', decode x = Ok (ret, x') ∧ Inv x' ∧ advance x x'
            ∧ xzBuf.out (Reader.buf x') = xzBuf.out (Reader.buf x)
            ∧ Reader.err x' = Reader.err x.
Proof.
  intros Hp [[Hi Ho] Hr].
  rewrite decode_padding by lia.
  set (b := Reader.buf x) in *.
  set (z := leading_zeros (drop (Z.to_nat (xzBuf.inPos b)) (xzBuf.in_ b))).
  pose proof (leading_zeros_le (drop (Z.to_nat (xzBuf.inPos b)) (xzBuf.in_ b))) as Hz.
  fold z in Hz. rewrite length_drop in Hz. unfold len in *.
  repeat case_match; eexists _, _; (split; [reflexivity |]);
    unfold Inv, buf_ok, advance, len; simpl; fold b; repeat split; lia.
Qed.

(** A run of the decoder under its contract. *)
Lemma decode_stream_Inv x :
  xzDecRun_contract →
  Reader.padding x < 0 →
  Inv x →
  xzBuf.outPos (Reader.buf x) ≤ Reader.outPos x →
  ∃ ret x', decode x = Ok (ret, x') ∧ Inv x' ∧ recycle_out x x'
            ∧ Reader.err x' = Reader.err x.
Proof.
  intros Hcon Hp [[Hi Ho] Hr] Hdel. unfold decode.
  rewrite bool_decide_false by lia. cbn [Reader.set_outPos Reader.set_buf
    Reader.dec Reader.buf].
  specialize (Hcon (Reader.dec x) (xzBuf.set_outPos 0 (Reader.buf x))).
  destruct (xzDecRun (Reader.dec x) (xzBuf.set_outPos 0 (Reader.buf x)))
    as [[ret d] b'] eqn:Hrun.
  simpl in Hcon.
  destruct Hcon as (Hin & Hout & Hip & Hop).
  { unfold buf_ok. simpl. lia. }
  eexists _, _. split; [reflexivity |].
  unfold Inv, buf_ok, recycle_out. simpl. rewrite Hin, Hout.
  repeat split; lia.
Qed.

(** Reading from upstream: what a read that does not panic leaves. *)
Lemma refill_ok x f :
  refill x = Ok f →
  Inv x →
  match f with
  | inl x' => Inv x' ∧ (advance x x' ∨ recycle_in x x')
              ∧ Reader.err x' = Reader.err x
              ∧ Reader.padding x' = Reader.padding x
              ∧ Reader.outPos x' = Reader.outPos x
              ∧ xzBuf.outPos (Reader.buf x') = xzBuf.outPos (Reader.buf x)
  | inr (x', _) => Inv x' ∧ advance x x'
  end.
Proof.
  intros Hf [[Hi Ho] Hr]. unfold refill in Hf.
  destruct (bool_decide _ && negb _) eqn:Hc.
  - apply andb_true_iff in Hc as [Hc _]. apply bool_decide_eq_true in Hc.
    destruct (io_Read (Reader.r x) bufSize) as [[data e] u].
    pose proof (len_nonneg data).
    destruct e as [e|]; [case_bool_decide |]; try case_bool_decide; try done;
      injection Hf as <-.
    + unfold Inv, buf_ok, advance. simpl. repeat split; lia.
    + unfold Inv, buf_ok, recycle_in. simpl. repeat split; lia.
    + unfold Inv, buf_ok, recycle_in. simpl. repeat split; lia.
  - injection Hf as <-.
    unfold Inv, buf_ok, advance. repeat split; try lia.
    left. repeat split; (done || lia).
Qed.

(** An upstream that keeps its contract makes no read panic. *)
Lemma refill_total x : io_Read_contract → ∃ f, refill x = Ok f.
Proof.
  intros Hcon. unfold refill.
  destruct (bool_decide _ && negb _); [| by eexists].
  specialize (Hcon (Reader.r x) bufSize ltac:(done)).
  destruct (io_Read (Reader.r x) bufSize) as [[data e] u]. simpl in Hcon.
  destruct e as [e|]; [case_bool_decide |];
    rewrite ?bool_decide_true by done; by eexists.
Qed.

Lemma refill_Inv x :
  io_Read_contract →
  Inv x →
  ∃ f, refill x = Ok f
       ∧ match f with
         | inl x' => Inv x' ∧ (advance x x' ∨ recycle_in x x')
                     ∧ Reader.err x' = Reader.err x
                     ∧ Reader.padding x' = Reader.padding x
                     ∧ Reader.outPos x' = Reader.outPos x
                     ∧ xzBuf.outPos (Reader.buf x') = xzBuf.outPos (Reader.buf x)
         | inr (x', _) => Inv x' ∧ advance x x'
         end.
Proof.
  intros Hcon HI. destruct (refill_total x Hcon) as [f Hf].
  exists f. split; [done |]. by apply refill_ok.
Qed.

(** The [switch] of [Read] touches no cursor. *)
Lemma switchRet_frame (ret : xzRet) x e :
  Reader.buf (switchRet ret x e).1 = Reader.buf x
  ∧ Reader.outPos (switchRet ret x e).1 = Reader.outPos x
  ∧ Reader.err (switchRet ret x e).1 = Reader.err x
  ∧ Reader.r (switchRet ret x e).1 = Reader.r x
  ∧ Reader.dec (switchRet ret x e).1 = Reader.dec x.
Proof.
  destruct ret; simpl; try done.
  case_bool_decide; [| done].
  by destruct (negb _ || _).
Qed.

(** The copy loop on a state in range. *)
Lemma copyOut_LInv s :
  LInv s →
  let k := (length (pending (rd s)) `min` Z.to_nat (len (p s) - n s))%nat in
  ∃ s1, copyOut (Z.to_nat (len (p s) - n s)) s = Ok s1
        ∧ rd s1 = delivered k (rd s)
        ∧ n s1 = n s + Z.of_nat k
        ∧ lerr s1 = lerr s
        ∧ LInv s1 ∧ advance (rd s) (rd s1) ∧ writes_below s s1.
Proof.
  intros [[[Hi Ho] Hr] Hn] k.
  assert (Hpl : length (pending (rd s))
                = Z.to_nat (xzBuf.outPos (Reader.buf (rd s)) - Reader.outPos (rd s)))
    by (apply pending_length; lia).
  rewrite copyOut_spec by lia.
  replace (Z.to_nat (len (p s) - n s)
           `min` (length (pending (rd s)) `min` Z.to_nat (len (p s) - n s)))%nat
    with k by lia.
  eexists. split; [reflexivity |]. cbn [rd p n lerr].
  assert (Hlen : len (take (Z.to_nat (n s)) (p s) ++ take k (pending (rd s))
                        ++ drop (Z.to_nat (n s) + k) (p s)) = len (p s)).
  { unfold len in *. rewrite !length_app, !length_take, length_drop. lia. }
  repeat split; try done; cbn [rd p n lerr delivered Reader.set_outPos
    Reader.buf Reader.outPos]; try lia.
  - rewrite take_app_length'; [done |]. rewrite length_take. unfold len in *. lia.
  - rewrite app_assoc, drop_app_length'.
    + f_equal. lia.
    + rewrite length_app, !length_take. unfold len in *. lia.
Qed.

Lemma Inv_frame x x' :
  Reader.buf x' = Reader.buf x → Reader.outPos x' = Reader.outPos x →
  Inv x → Inv x'.
Proof. unfold Inv. by intros -> ->. Qed.

Lemma writes_below_refl s : writes_below s s.
Proof. unfold writes_below. repeat split; (done || lia). Qed.

Lemma writes_below_trans s s' s'' :
  0 ≤ n s → writes_below s s' → writes_below s' s'' → writes_below s s''.
Proof.
  intros Hn (Hl1 & Hn1 & Ht1 & Hd1) (Hl2 & Hn2 & Ht2 & Hd2).
  unfold writes_below. repeat split; try lia.
  - assert (Hm : (Z.to_nat (n s) `min` Z.to_nat (n s'))%nat = Z.to_nat (n s)) by lia.
    rewrite <- Ht1, <- Hm, <- !take_take. by rewrite Ht2.
  - rewrite Hd2.
    replace (Z.to_nat (n s'')) with (Z.to_nat (n s') + (Z.to_nat (n s'') - Z.to_nat (n s')))%nat by lia.
    by rewrite <- !drop_drop, Hd1.
Qed.

(** The turn goes past the copy loop and its test only with every
    pending byte delivered; the upstream read does not change that. *)
Lemma decode_reached_idle s s1 x :
  LInv s →
  copyOut (Z.to_nat (len (p s) - n s)) s = Ok s1 →
  ¬ (Reader.outPos (rd s1) < xzBuf.outPos (Reader.buf (rd s1))
     ∧ n s1 = len (p s1)) →
  refill (rd s1) = Ok (inl x) →
  Reader.outPos x = xzBuf.outPos (Reader.buf x).
Proof.
  intros HL Hc Hfull Hf.
  destruct (copyOut_LInv s HL) as (s1' & Hc' & Hrd & Hn1 & _ & [HI1 _] & _ & Hw).
  rewrite Hc in Hc'. injection Hc' as <-.
  apply refill_ok in Hf as (_ & _ & _ & _ & Ho & Hbo); [| done].
  rewrite Ho, Hbo. rewrite Hrd in *.
  destruct HL as [[[? ?] ?] ?].
  pose proof (pending_length (rd s)) as Hpl.
  cbn [delivered Reader.set_outPos Reader.buf Reader.outPos] in *.
  destruct Hw as (Hlen & _). lia.
Qed.

(** One turn of the loop, from a state in range. *)
Lemma Read_iter_LInv s :
  xzDecRun_contract →
  io_Read_contract →
  LInv s →
  ∃ c, Read_iter s = Ok c ∧ LInv (ctl_state c) ∧ writes_below s (ctl_state c).
Proof.
  intros HconD HconU HL.
  destruct (copyOut_LInv s HL) as (s1 & Hc & Hrd & Hn1 & Hl1 & HL1 & _ & Hw).
  unfold Read_iter. rewrite Hc. cbn [rbind].
  destruct HL1 as [HI1 Hn].
  case_bool_decide as Hfull; [by eexists |].
  case_bool_decide as He; [by eexists |].
  destruct (Reader.dEOF (rd s1)); [by eexists |].
  destruct (refill_Inv (rd s1) HconU HI1) as (f & Hf & Hfp). rewrite Hf.
  cbn [rbind].
  destruct f as [x2 | [x2 e]].
  - destruct Hfp as (HI2 & _ & _ & _ & Ho2 & Hbo2).
    assert (Hdel : xzBuf.outPos (Reader.buf x2) ≤ Reader.outPos x2).
    { rewrite Ho2, Hbo2. rewrite Hrd in *. destruct HL as [[[? ?] ?] ?].
      pose proof (pending_length (rd s)) as Hpl.
      cbn [delivered Reader.set_outPos Reader.buf Reader.outPos] in *.
      destruct Hw as (Hlen & _). lia. }
    assert (Hd : ∃ ret x3, decode x2 = Ok (ret, x3) ∧ Inv x3).
    { destruct (decide (0 ≤ Reader.padding x2)) as [Hp | Hp].
      - destruct (decode_padding_Inv x2 Hp HI2) as (ret & x3 & ? & ? & _).
        by exists ret, x3.
      - destruct (decode_stream_Inv x2 HconD) as (ret & x3 & ? & ? & _);
          [lia | done | done |].
        by exists ret, x3. }
    destruct Hd as (ret & x3 & Hd & HI3). rewrite Hd. cbn [rbind fst snd].
    destruct (switchRet ret x3 (lerr s1)) as [x4 e4] eqn:Hsw.
    eexists. split; [reflexivity |]. cbn [ctl_state].
    split; [| done].
    split; [| done]. cbn [rd].
    pose proof (switchRet_frame ret x3 (lerr s1)) as (Hb & Ho & _).
    rewrite Hsw in Hb, Ho. simpl in Hb, Ho.
    eapply (Inv_frame x3); [| | done]; simpl; done.
  - destruct Hfp as [HI2 _].
    eexists. split; [reflexivity |]. by split.
Qed.

(** The same for a turn that is known not to panic: the contract of
    the upstream is not needed. *)
Lemma Read_iter_ok_LInv s c :
  xzDecRun_contract →
  LInv s →
  Read_iter s = Ok c →
  LInv (ctl_state c) ∧ writes_below s (ctl_state c).
Proof.
  intros HconD HL Hit.
  destruct (copyOut_LInv s HL) as (s1 & Hc & Hrd & Hn1 & Hl1 & HL1 & _ & Hw).
  assert (Hdel : xzBuf.outPos (Reader.buf (rd s1)) ≤ Reader.outPos (rd s1)
                 ∨ n s1 ≠ len (p s1) →
                 xzBuf.outPos (Reader.buf (rd s1)) ≤ Reader.outPos (rd s1)).
  { rewrite Hrd in *. destruct HL as [[[? ?] ?] ?].
    pose proof (pending_length (rd s)) as Hpl.
    cbn [delivered Reader.set_outPos Reader.buf Reader.outPos] in *.
    destruct Hw as (Hlen & _). lia. }
  destruct HL1 as [HI1 Hn].
  apply Read_iter_turn in Hit.
  destruct Hit as [s1' Hc' H1 H2 | s1' e1 Hc' H1 H2 | s1' Hc' H1 H2 H3
                  | s1' x e1 Hc' H1 H2 H3 H4 | s1' x ret x' Hc' H1 H2 H3 H4 H5];
    rewrite Hc in Hc'; injection Hc' as <-; cbn [ctl_state]; try done.
  - apply refill_ok in H4 as [HI2 _]; [| done]. done.
  - apply refill_ok in H4 as (HI2 & _ & _ & _ & Ho2 & Hbo2); [| done].
    split; [| done]. split; [| done]. cbn [rd].
    pose proof (switchRet_frame ret x' None) as (Hb & Ho & _).
    eapply (Inv_frame x'); [done | done |].
    destruct (decide (0 ≤ Reader.padding x)) as [Hp | Hp].
    + destruct (decode_padding_Inv x Hp HI2) as (ret' & x3 & Hd & ? & _).
      rewrite H5 in Hd. by injection Hd as _ <-.
    + destruct (decode_stream_Inv x HconD) as (ret' & x3 & Hd & ? & _);
        [lia | done | |].
      * rewrite Ho2, Hbo2. auto.
      * rewrite H5 in Hd. by injection Hd as _ <-.
Qed.

(** Any number of turns, from a state in range. *)
Lemma Read_loop_LInv (fuel : nat) s :
  xzDecRun_contract →
  io_Read_contract →
  LInv s →
  ∃ c, Read_loop fuel s = Ok c ∧ LInv (ctl_state c) ∧ writes_below s (ctl_state c).
Proof.
  intros HconD HconU. revert s. induction fuel as [|fuel IH]; intros s HL.
  - eexists. split; [reflexivity |]. split; [done | apply writes_below_refl].
  - cbn [Read_loop].
    destruct (Read_iter_LInv s HconD HconU HL) as (c & Hc & HLc & Hw).
    rewrite Hc. cbn [rbind].
    destruct c as [s' | s'].
    + destruct (IH s' HLc) as (c' & Hc' & HLc' & Hw').
      exists c'. split; [done |]. split; [done |].
      destruct HL as [_ [? _]]. by eapply writes_below_trans.
    + by eexists.
Qed.

Lemma NewReader_Inv (u : U) (dictMax : Z) x :
  NewReader (Some u) dictMax = (Some x, None) → Inv x.
Proof.
  intros Hx. injection Hx as <-.
  unfold Inv, buf_ok, len. simpl. lia.
Qed.

(** Any number of turns of a call that does not panic. *)
Lemma Read_loop_ok_LInv (fuel : nat) s c :
  xzDecRun_contract →
  LInv s →
  Read_loop fuel s = Ok c →
  LInv (ctl_state c).
Proof.
  intros HconD. revert s. induction fuel as [|fuel IH]; intros s HL Hc.
  - by injection Hc as <-.
  - cbn [Read_loop] in Hc.
    destruct (Read_iter s) as [c1|] eqn:Hit; [cbn [rbind] in Hc | done].
    apply Read_iter_ok_LInv in Hit as [HL1 _]; [| done | done].
    destruct c1 as [s1 | s1]; [by eapply IH |].
    by injection Hc as <-.
Qed.

(** Every Reader a program can come to hold has its cursors in range. *)
Lemma reachable_Inv x : xzDecRun_contract → reachable x → Inv x.
Proof.
  intros HconD Hr. induction Hr as [u dm x Hx | fuel x q s _ IH Hread | ok x _ IH | x _ IH].
  - by eapply NewReader_Inv.
  - apply (Read_loop_ok_LInv fuel _ _ HconD) in Hread as [HI _]; [done |].
    split; [done |]. simpl. pose proof (len_nonneg q). lia.
  - done.
  - unfold Reset. by destruct (Reader.dEOF x), (Reader.rEOF x).
Qed.

(** C9 (amended).  With a decoder that keeps the contract of [xzBuf] and
    an upstream that returns no more than it was given room for, a
    Reader whose cursors are in range, as [NewReader] leaves them, keeps
    them in range: at every turn of every [Read] call no index is out of
    bounds, [0 <= n <= len(p)], [p] is written only below [n],
    [0 <= buf.inPos <= len(buf.in)] and
    [0 <= r.outPos <= buf.outPos <= len(buf.out)].  In each stage of a
    turn (the copy loop, the upstream read, the decoder) the cursors
    only move forward, but for two resets to zero: of [buf.inPos] when
    the input buffer, all consumed, is replaced by an upstream read, and
    of [r.outPos] and [buf.outPos] when the decoder is run again, which
    a turn does only with all its output delivered. *)
Theorem cursors_stay_in_range :
  xzDecRun_contract →
  io_Read_contract →
  (∀ (u : U) (dictMax : Z) x,
     NewReader (Some u) dictMax = (Some x, None) → Inv x)
  ∧ (∀ (fuel : nat) x (q : list byte),
       Inv x →
       ∃ c, Read fuel x q = Ok c
            ∧ Inv (rd (ctl_state c))
            ∧ 0 ≤ n (ctl_state c) ≤ len q
            ∧ len (p (ctl_state c)) = len q
            ∧ drop (Z.to_nat (n (ctl_state c))) (p (ctl_state c))
              = drop (Z.to_nat (n (ctl_state c))) q)
  ∧ (∀ s, LInv s →
       ∃ s1, copyOut (Z.to_nat (len (p s) - n s)) s = Ok s1
             ∧ LInv s1 ∧ advance (rd s) (rd s1) ∧ writes_below s s1)
  ∧ (∀ x, Inv x →
       ∃ f, refill x = Ok f
            ∧ match f with
              | inl x' => Inv x' ∧ (advance x x' ∨ recycle_in x x')
              | inr (x', _) => Inv x' ∧ advance x x'
              end)
  ∧ (∀ s s1 x, LInv s →
       copyOut (Z.to_nat (len (p s) - n s)) s = Ok s1 →
       ¬ (Reader.outPos (rd s1) < xzBuf.outPos (Reader.buf (rd s1))
          ∧ n s1 = len (p s1)) →
       refill (rd s1) = Ok (inl x) →
       Reader.outPos x = xzBuf.outPos (Reader.buf x))
  ∧ (∀ x, Inv x →
       Reader.outPos x = xzBuf.outPos (Reader.buf x) →
       ∃ ret x', decode x = Ok (ret, x')
                 ∧ Inv x' ∧ (advance x x' ∨ recycle_out x x')).
Proof.
  intros HconD HconU. repeat apply conj.
  - apply NewReader_Inv.
  - intros fuel x q HI.
    destruct (Read_loop_LInv fuel (LState x q 0 (Reader.err x)) HconD HconU)
      as (c & Hc & [HIc Hn] & Hl & _ & _ & Hd).
    { split; [done |]. simpl. pose proof (len_nonneg q). lia. }
    exists c. cbn [rd p n lerr] in *. rewrite Hl in Hn.
    split; [done |]. split; [done |]. split; [lia |]. split; done.
  - intros s HL.
    destruct (copyOut_LInv s HL) as (s1 & Hc & _ & _ & _ & HL1 & Ha & Hw).
    by exists s1.
  - intros x HI.
    destruct (refill_Inv x HconU HI) as (f & Hf & Hfp).
    exists f. split; [done |].
    destruct f as [x' | [x' e]]; [| done].
    by destruct Hfp as (? & ? & _).
  - apply decode_reached_idle.
  - intros x HI Hdel.
    destruct (decide (0 ≤ Reader.padding x)) as [Hp | Hp].
    + destruct (decode_padding_Inv x Hp HI) as (ret & x' & ? & ? & ? & _).
      exists ret, x'. auto.
    + destruct (decode_stream_Inv x HconD) as (ret & x' & ? & ? & ? & _);
        [lia | done | lia |].
      exists ret, x'. auto.
Qed.

End Stages.

(** ** Errors are returned after the decoded bytes (claims C2 and C8) *)

Section Errors.

Context {U D : Type} `{!io_Reader U} `{!xzDecoder D}.
Implicit Type x : Reader.t U D.
Implicit Type s : @lstate U D.

(** A turn that goes on leaves [err] saved in [r.err]. *)
Lemma Read_iter_saved s s1 :
  Read_iter s = Ok (Continue s1) → lerr s1 = Reader.err (rd s1).
Proof.
  intros Hit. apply Read_iter_turn in Hit. by inversion Hit.
Qed.

(** C8.  When the loop of [Read] needs input (no error recorded, the
    decoder not finished, the input buffer consumed, no [io.EOF] seen)
    and the pending bytes fit in [p], it delivers them and reads from
    upstream; if that read returns an error [e] other than [io.EOF], the
    call returns at once with the bytes delivered so far and [e] itself:
    the data of the failed read is dropped, the decoder is not run, and
    no error is recorded in the Reader. *)
Theorem upstream_error_is_returned (fuel : nat) s (data : list byte) (e : error) (u : U) :
  LInv s →
  lerr s = None →
  Reader.dEOF (rd s) = false →
  Reader.rEOF (rd s) = false →
  xzBuf.inPos (Reader.buf (rd s)) = len (xzBuf.in_ (Reader.buf (rd s))) →
  (length (pending (rd s)) ≤ Z.to_nat (len (p s) - n s))%nat →
  io_Read (Reader.r (rd s)) bufSize = (data, Some e, u) →
  e ≠ io_EOF →
  Read_loop (S fuel) s
  = Ok (Break (LState (Reader.set_r u (delivered (length (pending (rd s))) (rd s)))
                 (take (Z.to_nat (n s)) (p s) ++ pending (rd s)
                    ++ drop (Z.to_nat (n s) + length (pending (rd s))) (p s))
                 (n s + Z.of_nat (length (pending (rd s))))
                 (Some e))).
Proof.
  intros [[[Hi Ho] Hr] Hn] Hl HdEOF HrEOF Hin Hfit Hread Hne.
  assert (Hpl : length (pending (rd s))
                = Z.to_nat (xzBuf.outPos (Reader.buf (rd s)) - Reader.outPos (rd s)))
    by (apply pending_length; lia).
  cbn [Read_loop]. unfold Read_iter.
  rewrite copyOut_spec by lia.
  replace (Z.to_nat (len (p s) - n s)
           `min` (length (pending (rd s)) `min` Z.to_nat (len (p s) - n s)))%nat
    with (length (pending (rd s))) by lia.
  rewrite (take_ge (pending (rd s))) by lia.
  cbn [rbind rd p n lerr delivered Reader.set_outPos Reader.outPos Reader.buf
       Reader.dEOF].
  rewrite bool_decide_false by lia.
  rewrite Hl, bool_decide_false by (by intros []).
  rewrite HdEOF. unfold refill.
  cbn [Reader.buf Reader.rEOF Reader.r delivered Reader.set_outPos].
  rewrite bool_decide_true by done. rewrite HrEOF. cbn [negb andb].
  rewrite Hread. rewrite bool_decide_true by done.
  reflexivity.
Qed.

(** C2.  When a turn of the loop of [Read] ends with an error [e] of
    the decoder recorded, the bytes the decoder has left in its output
    buffer are all delivered before [e] is returned: the rest of the
    call copies as many as fit in [p] and returns [e] only if none is
    left behind (nil otherwise), and the later calls go on in the same
    way, so that the call that returns [e] has been handed, with the
    calls before it, every pending byte in order. *)
Theorem decoded_bytes_precede_error (fuel : nat) s s1 (e : error)
    (qs : list (list byte)) :
  xzDecRun_contract →
  LInv s →
  Read_iter s = Ok (Continue s1) →
  lerr s1 = Some e →
  let pend := pending (rd s1) in
  let room := Z.to_nat (len (p s1) - n s1) in
  ∃ s2 x',
    Read_loop (S fuel) s1 = Ok (Break s2)
    ∧ seen s2 = (take (Z.to_nat (n s1)) (p s1) ++ take room pend,
                 if bool_decide (length pend ≤ room)%nat then Some e else None)
    ∧ Reads (S fuel) (rd s2) qs = Some (drain e (drop room pend) qs, x')
    ∧ (∀ (i : nat) (d : list byte),
         drain e (drop room pend) qs !! i = Some (d, Some e) →
         take room pend ++ concat (take (S i) (drain e (drop room pend) qs)).*1
         = pend).
Proof.
  intros HconD HL Hit He pend room.
  pose proof (Read_iter_saved s s1 Hit) as Hsaved.
  destruct (Read_iter_ok_LInv s _ HconD HL Hit) as [[HI1 Hn1] _].
  cbn [ctl_state] in *.
  assert (Hst : stopped (rd s1) e) by (left; congruence).
  pose proof (Read_loop_drain fuel s1 e HI1 Hn1 Hsaved Hst) as Hdrain.
  fold pend in Hdrain. fold room in Hdrain. cbn zeta in Hdrain.
  set (k := (length pend `min` room)%nat) in *.
  assert (Ht : take k pend = take room pend).
  { subst k. destruct (decide (length pend ≤ room)%nat).
    - rewrite !take_ge; [done | lia | lia].
    - f_equal. lia. }
  assert (Hd : drop k pend = drop room pend).
  { subst k. destruct (decide (length pend ≤ room)%nat).
    - rewrite !drop_ge; [done | lia | lia].
    - f_equal. lia. }
  destruct (Reads_drain fuel qs (delivered k (rd s1)) e) as [j Hj].
  { apply Inv_delivered; [done | subst k pend; lia]. }
  { by apply stopped_delivered. }
  eexists _, _. split; [exact Hdrain |].
  split; [| split].
  - unfold seen. cbn [n p lerr]. f_equal.
    rewrite app_assoc.
    rewrite take_app_length'; [by rewrite Ht |].
    rewrite length_app, !length_take. unfold len in *. lia.
  - cbn [rd]. rewrite Hj. destruct HI1 as [_ Ho].
    rewrite pending_delivered by lia. fold pend. by rewrite Hd.
  - intros i d Hi. apply drain_complete in Hi. rewrite Hi. apply take_drop.
Qed.

End Errors.

(** ** Construction and [Reset] (claims C6, C7 and C10) *)

Section Lifecycle.

Context {U D : Type} `{!io_Reader U} `{!xzDecoder D}.
Implicit Type x : Reader.t U D.

(** C7.  [NewReader(nil, dictMax)] returns no Reader and [ErrNilReader].
    With an upstream [u], [NewReader(u, 0)] returns a Reader whose
    decoder is made with the cap [DefaultDictMax], which is [2^26], that
    is 64 MiB; [NewReader(u, d)] with [d > 0] returns one whose decoder
    is made with the cap [d]; both Readers are in multistream mode and
    no error is returned. *)
Theorem NewReader_spec :
  (∀ dictMax : Z, NewReader (U := U) (D := D) None dictMax = (None, Some ErrNilReader))
  ∧ (∀ u : U, ∃ x,
       NewReader (Some u) 0 = (Some x, None)
       ∧ Reader.dec x = xzDecInit DefaultDictMax
       ∧ Reader.multistream x = true)
  ∧ (∀ (u : U) (d : Z), 0 < d < 2 ^ 32 → ∃ x,
       NewReader (Some u) d = (Some x, None)
       ∧ Reader.dec x = xzDecInit d
       ∧ Reader.multistream x = true)
  ∧ DefaultDictMax = 2 ^ 26
  ∧ DefaultDictMax = 64 * 1024 * 1024.
Proof.
  repeat apply conj; try done.
  - intros u. by eexists.
  - intros u d Hd. unfold NewReader.
    rewrite bool_decide_false by lia. by eexists.
Qed.


(** C10.  On a Reader that has not finished ([dEOF] clear), [Reset]
    returns nil and changes nothing; and in every case it leaves the
    upstream, [rEOF], the padding counter, the cursors, the buffers, the
    decoder and the recorded error as they are. *)
Theorem Reset_frame x :
  (Reader.dEOF x = false → Reset x = (x, None))
  ∧ Reader.r (Reset x).1 = Reader.r x
  ∧ Reader.rEOF (Reset x).1 = Reader.rEOF x
  ∧ Reader.padding (Reset x).1 = Reader.padding x
  ∧ Reader.outPos (Reset x).1 = Reader.outPos x
  ∧ Reader.buf (Reset x).1 = Reader.buf x
  ∧ Reader.dec (Reset x).1 = Reader.dec x
  ∧ Reader.err (Reset x).1 = Reader.err x.
Proof.
  unfold Reset. destruct x as [u m re de pd o b d e]. simpl.
  destruct de, re; simpl; repeat split; done.
Qed.

End Lifecycle.

(** ** Stream padding and the end of a stream (claims C3, C4 and C5) *)

Section Padding.

Context {U D : Type} `{!io_Reader U} `{!xzDecoder D}.
Implicit Type x : Reader.t U D.
Implicit Type s : @lstate U D.

Lemma eqb_x00_false (c : byte) : c ≠ x00 → Byte.eqb c x00 = false.
Proof.
  intros Hc. destruct (Byte.eqb c x00) eqn:He; [| done].
  by apply Byte.byte_dec_bl in He.
Qed.

(** The padding loop stops before a byte that is not zero. *)
Lemma leading_zeros_stop (l : list byte) :
  (leading_zeros l < length l)%nat →
  ∃ c, l !! leading_zeros l = Some c ∧ c ≠ x00.
Proof.
  induction l as [|c l IH]; simpl; [lia |].
  destruct (Byte.eqb c x00) eqn:He.
  - intros Hl. apply IH. lia.
  - intros _. exists c. split; [done |]. by apply Byte.eqb_false.
Qed.

Lemma leading_zeros_replicate (k : nat) (c : byte) (rest : list byte) :
  c ≠ x00 → leading_zeros (replicate k x00 ++ c :: rest) = k.
Proof.
  intros Hc. induction k as [|k IH]; simpl.
  - by rewrite eqb_x00_false.
  - by rewrite IH.
Qed.

(** How [decode] comes to report the end of a stream while it reads
    padding: after a multiple of four bytes of padding, either at the
    end of the input with [io.EOF] seen, or before a byte that is not
    zero, in which case the decoder is reset. *)
Lemma decode_padding_stream_end x x' :
  0 ≤ Reader.padding x →
  0 ≤ xzBuf.inPos (Reader.buf x) ≤ len (xzBuf.in_ (Reader.buf x)) →
  Reader.padding x + len (xzBuf.in_ (Reader.buf x)) < 2 ^ 63 →
  decode x = Ok (xzStreamEnd, x') →
  let b := Reader.buf x in
  let z := Z.of_nat (leading_zeros (drop (Z.to_nat (xzBuf.inPos b)) (xzBuf.in_ b))) in
  let x1 := Reader.set_padding (Reader.padding x + z)
              (Reader.set_buf (xzBuf.set_inPos (xzBuf.inPos b + z) b) x) in
  Z.rem (Reader.padding x + z) 4 = 0
  ∧ ((xzBuf.inPos b + z = len (xzBuf.in_ b) ∧ Reader.rEOF x = true ∧ x' = x1)
     ∨ (xzBuf.inPos b + z < len (xzBuf.in_ b)
        ∧ x' = Reader.set_dec (xzDecReset (Reader.dec x)) x1)).
Proof.
  intros Hp Hi Hov Hd b z x1.
  rewrite decode_padding in Hd by (done || lia).
  pose proof (leading_zeros_le (drop (Z.to_nat (xzBuf.inPos b)) (xzBuf.in_ b))) as Hz.
  rewrite length_drop in Hz. fold b in Hd.
  rewrite iter_int_incr in Hd by (subst b; unfold len in *; lia).
  fold z in Hd. fold x1 in Hd.
  change (Reader.padding x1) with (Reader.padding x + z) in Hd.
  destruct (decide (xzBuf.inPos b + z = len (xzBuf.in_ b))) as [Hend | Hend].
  - rewrite (bool_decide_true _ Hend) in Hd.
    destruct (Reader.rEOF x); cbn [andb] in Hd; [| done].
    case_bool_decide as Hrem; [done |].
    injection Hd as <-. split; [lia |]. by left.
  - rewrite (bool_decide_false _ Hend) in Hd. cbn [andb] in Hd.
    case_bool_decide as Hrem; [done |].
    injection Hd as <-. split; [lia |]. right.
    split; [unfold len in *; subst z b; lia | done].
Qed.

(** The end of a stream, by mode.  (a) In single-stream mode, when
    [decode] reports the end of a stream while reading its padding, the
    [switch] of [Read] marks the decoder as finished.  (b) A finished
    Reader with no recorded error stays finished under [Read] and
    [Multistream]: its successive [Read] calls deliver the pending bytes
    and then return [io.EOF], each time.  (c) In multistream mode the
    end of the padding marks the decoder as finished if and only if
    [io.EOF] has been seen from upstream.  When the padding ends before
    a byte that is not zero, which is always the case when no [io.EOF]
    has been seen, the decoder is reset and back on real streams: the
    next call of [decode] would run the reset decoder on the input at
    that byte. *)
Lemma single_stream_end_of_file :
  (∀ x x',
     Reader.multistream x = false →
     0 ≤ Reader.padding x →
     0 ≤ xzBuf.inPos (Reader.buf x) ≤ len (xzBuf.in_ (Reader.buf x)) →
     Reader.padding x + len (xzBuf.in_ (Reader.buf x)) < 2 ^ 63 →
     decode x = Ok (xzStreamEnd, x') →
     Reader.dEOF (switchRet xzStreamEnd x' None).1 = true
     ∧ (switchRet xzStreamEnd x' None).2 = None)
  ∧ (∀ x (fuel : nat) (qs : list (list byte)),
       Inv x →
       Reader.err x = None →
       Reader.dEOF x = true →
       ∃ x', Reads (S fuel) x qs = Some (drain io_EOF (pending x) qs, x')
             ∧ Reader.dEOF x' = true
             ∧ Reader.err x' = None
             ∧ ∀ ok : bool, Reader.dEOF (Multistream ok x') = true)
  ∧ (∀ x x',
       Reader.multistream x = true →
       0 ≤ Reader.padding x →
       0 ≤ xzBuf.inPos (Reader.buf x) ≤ len (xzBuf.in_ (Reader.buf x)) →
       Reader.padding x + len (xzBuf.in_ (Reader.buf x)) < 2 ^ 63 →
       decode x = Ok (xzStreamEnd, x') →
       let x'' := (switchRet xzStreamEnd x' None).1 in
       Reader.dEOF x'' = Reader.dEOF x || Reader.rEOF x
       ∧ Reader.padding x'' = -1
       ∧ (Reader.rEOF x = false
          ∨ xzBuf.inPos (Reader.buf x'') < len (xzBuf.in_ (Reader.buf x'')) →
          Reader.dec x'' = xzDecReset (Reader.dec x)
          ∧ (∃ c, index (xzBuf.in_ (Reader.buf x'')) (xzBuf.inPos (Reader.buf x''))
                  = Some c ∧ c ≠ x00)
          ∧ ∀ ret d b,
              xzDecRun (xzDecReset (Reader.dec x))
                (xzBuf.set_outPos 0 (Reader.buf x'')) = (ret, d, b) →
              ∃ x3, decode x'' = Ok (ret, x3)
                    ∧ Reader.dec x3 = d ∧ Reader.buf x3 = b)).
Proof.
  repeat apply conj.
  - intros x x' Hm Hp Hi Hov Hd.
    apply decode_padding_stream_end in Hd as [Hrem Hd]; try done.
    pose proof (Nat2Z.is_nonneg (leading_zeros
      (drop (Z.to_nat (xzBuf.inPos (Reader.buf x))) (xzBuf.in_ (Reader.buf x))))).
    destruct Hd as [(_ & _ & ->) | (_ & ->)]; simpl;
      rewrite bool_decide_true by lia; rewrite Hm; done.
  - intros x fuel qs HI He Hd.
    destruct (Reads_drain fuel qs x io_EOF HI) as [j Hj]; [by right |].
    exists (delivered j x). by destruct x.
  - intros x x' Hm Hp Hi Hov Hd x''.
    apply decode_padding_stream_end in Hd as [Hrem Hd]; try done.
    set (l := drop (Z.to_nat (xzBuf.inPos (Reader.buf x))) (xzBuf.in_ (Reader.buf x))) in *.
    pose proof (Nat2Z.is_nonneg (leading_zeros l)).
    destruct Hd as [(Hend & Hr & ->) | (Hlt & ->)].
    + subst x''. simpl. rewrite bool_decide_true by lia. rewrite Hm, Hr. simpl.
      split; [by rewrite orb_true_r |]. split; [done |].
      intros [Hf | Hin]; [done | lia].
    + subst x''. simpl. rewrite bool_decide_true by lia. rewrite Hm.
      destruct x as [u m re de pd o b d e]. simpl in *.
      destruct re; simpl.
      * split; [by rewrite orb_true_r |]. split; [done |]. intros _.
        repeat split; try done.
        -- destruct (leading_zeros_stop l) as (c & Hc & Hne).
           { subst l. rewrite length_drop. unfold len in *. lia. }
           exists c. split; [| done]. apply index_Some; [lia |].
           subst l. rewrite lookup_drop in Hc. rewrite <- Hc. f_equal. lia.
        -- intros ret d0 b0 Hrun. unfold decode. simpl.
           rewrite Hrun. by eexists.
      * split; [by rewrite orb_false_r |]. split; [done |]. intros _.
        repeat split; try done.
        -- destruct (leading_zeros_stop l) as (c & Hc & Hne).
           { subst l. rewrite length_drop. unfold len in *. lia. }
           exists c. split; [| done]. apply index_Some; [lia |].
           subst l. rewrite lookup_drop in Hc. rewrite <- Hc. f_equal. lia.
        -- intros ret d0 b0 Hrun. unfold decode. simpl.
           rewrite Hrun. by eexists.
Qed.

(** The end of the padding with [io.EOF] already seen: whatever the
    mode, and although a byte that is not zero follows in the input
    buffer, the loop of [Read] delivers the pending bytes, marks the
    decoder as finished and returns [io.EOF]. *)
Lemma padding_end_with_EOF_seen (fuel : nat) s (k : nat) (c : byte)
    (rest : list byte) :
  LInv s →
  lerr s = None →
  Reader.err (rd s) = None →
  Reader.dEOF (rd s) = false →
  Reader.rEOF (rd s) = true →
  0 ≤ Reader.padding (rd s) →
  Reader.padding (rd s) + len (xzBuf.in_ (Reader.buf (rd s))) < 2 ^ 63 →
  Z.rem (Reader.padding (rd s) + Z.of_nat k) 4 = 0 →
  drop (Z.to_nat (xzBuf.inPos (Reader.buf (rd s)))) (xzBuf.in_ (Reader.buf (rd s)))
  = replicate k x00 ++ c :: rest →
  c ≠ x00 →
  (length (pending (rd s)) ≤ Z.to_nat (len (p s) - n s))%nat →
  ∃ s', Read_loop (S (S fuel)) s = Ok (Break s')
        ∧ seen s' = (take (Z.to_nat (n s)) (p s) ++ pending (rd s), Some io_EOF)
        ∧ Inv (rd s')
        ∧ pending (rd s') = []
        ∧ Reader.err (rd s') = None
        ∧ Reader.dEOF (rd s') = true
        ∧ Reader.rEOF (rd s') = true
        ∧ xzBuf.in_ (Reader.buf (rd s')) = xzBuf.in_ (Reader.buf (rd s))
        ∧ xzBuf.inPos (Reader.buf (rd s'))
          = xzBuf.inPos (Reader.buf (rd s)) + Z.of_nat k.
Proof.
  intros HL Hl He HdEOF HrEOF Hp Hov Hrem Hdrop Hc Hfit.
  destruct (copyOut_LInv s HL) as (s1 & Hcopy & Hrd & Hn1 & Hl1 & HL1 & _ & Hw).
  destruct HL as [[[Hi Ho] Hr] Hn].
  assert (Hpl : length (pending (rd s))
                = Z.to_nat (xzBuf.outPos (Reader.buf (rd s)) - Reader.outPos (rd s)))
    by (apply pending_length; lia).
  set (j := length (pending (rd s))) in *.
  replace (j `min` Z.to_nat (len (p s) - n s))%nat with j in * by lia.
  assert (Hlz : leading_zeros (drop (Z.to_nat (xzBuf.inPos (Reader.buf (rd s))))
                                 (xzBuf.in_ (Reader.buf (rd s)))) = k)
    by (rewrite Hdrop; by apply leading_zeros_replicate).
  assert (Hk : xzBuf.inPos (Reader.buf (rd s)) + Z.of_nat k
               < len (xzBuf.in_ (Reader.buf (rd s)))).
  { apply (f_equal length) in Hdrop.
    rewrite length_drop, length_app, length_replicate in Hdrop. simpl in Hdrop.
    unfold len. lia. }
  (* the first turn ends the padding *)
  set (x2 := Reader.set_dec (xzDecReset (Reader.dec (rd s1)))
               (Reader.set_padding (Reader.padding (rd s) + Z.of_nat k)
                  (Reader.set_buf
                     (xzBuf.set_inPos (xzBuf.inPos (Reader.buf (rd s)) + Z.of_nat k)
                        (Reader.buf (rd s))) (rd s1)))).
  assert (Hdec : decode (rd s1) = Ok (xzStreamEnd, x2)).
  { rewrite decode_padding; rewrite Hrd; cbn [delivered Reader.set_outPos
      Reader.buf Reader.padding Reader.rEOF Reader.dec]; [| done | lia].
    rewrite Hlz, iter_int_incr by (unfold len in *; lia).
    rewrite !(bool_decide_false (_ = len _)) by lia. cbn [andb Reader.padding
      Reader.set_padding].
    rewrite bool_decide_false by (intros Hne; by apply Hne).
    subst x2. by rewrite Hrd. }
  assert (Hturn : Read_iter s
                  = Ok (Continue (LState (Reader.set_err None
                                  (Reader.set_dEOF true (Reader.set_padding (-1) x2)))
                            (p s1) (n s1) None))).
  { assert (Hsw : switchRet xzStreamEnd x2 None
                   = (Reader.set_dEOF true (Reader.set_padding (-1) x2), None)).
    { unfold switchRet. rewrite bool_decide_true by (subst x2; simpl; lia).
      replace (Reader.rEOF (Reader.set_padding (-1) x2)) with true
        by (subst x2; simpl; by rewrite Hrd).
      by rewrite orb_true_r. }
    unfold Read_iter. rewrite Hcopy. cbn [rbind].
    rewrite bool_decide_false by (rewrite Hrd; simpl; lia).
    rewrite Hl1, Hl. rewrite bool_decide_false by (by intros []).
    replace (Reader.dEOF (rd s1)) with false by (by rewrite Hrd).
    replace (refill (rd s1)) with (Ok (inl (B := Reader.t U D * error) (rd s1))).
    2:{ unfold refill. rewrite Hrd. simpl. rewrite HrEOF.
        by rewrite andb_false_r. }
    cbn [rbind]. rewrite Hdec. cbn [rbind fst snd]. by rewrite Hsw. }
  cbn [Read_loop]. rewrite Hturn. cbn [rbind].
  (* the second turn returns io.EOF *)
  set (s2 := LState _ (p s1) (n s1) None).
  assert (HI2 : Inv (rd s2)).
  { subst s2 x2. unfold Inv, buf_ok. cbn. rewrite Hrd. cbn. lia. }
  assert (Hp2 : pending (rd s2) = []).
  { apply pending_nil. subst s2 x2. cbn. rewrite Hrd. cbn. lia. }
  pose proof (Read_loop_drain fuel s2 io_EOF HI2) as Hdrain.
  rewrite Hp2 in Hdrain. cbn [length Nat.min take app] in Hdrain.
  change (Read_loop (S fuel) s2) with (rbind (Read_iter s2)
    (λ c, match c with Continue s' => Read_loop fuel s' | Break s' => Ok (Break s') end))
    in Hdrain.
  rewrite Hdrain; [| by destruct HL1 | done | by right].
  eexists. split; [reflexivity |].
  destruct Hw as (Hlen & Hnn & Htake & Hdropp).
  unfold seen. cbn [rd p n lerr]. rewrite delivered_0.
  rewrite bool_decide_true by lia.
  split; [| split; [exact HI2 | split; [exact Hp2 |]]].
  - f_equal. rewrite Nat.add_0_r, take_drop, Z.add_0_r.
    subst s2. cbn [p n].
    pose proof (copyOut_spec (Z.to_nat (len (p s) - n s)) s) as Hspec.
    rewrite Hcopy in Hspec. cbn zeta in Hspec.
    replace (Z.to_nat (len (p s) - n s)
             `min` (length (pending (rd s)) `min` Z.to_nat (len (p s) - n s)))%nat
      with j in Hspec by (subst j; lia).
    specialize (Hspec ltac:(lia) ltac:(lia) ltac:(lia)).
    injection Hspec as ->. cbn [p n].
    rewrite app_assoc, take_app_length'.
    + f_equal. apply take_ge. subst j. lia.
    + rewrite length_app, !length_take. unfold len in *. subst j. lia.
  - subst s2 x2. cbn. rewrite Hrd. cbn. by rewrite HrEOF.
Qed.

(** The two errors of stream padding: [io.EOF] seen at the end of the
    input with a padding that is not a multiple of four is [ErrBuf], a
    byte that is not zero after such a padding is [ErrData]. *)
Lemma padding_errors x :
  0 ≤ Reader.padding x →
  0 ≤ xzBuf.inPos (Reader.buf x) ≤ len (xzBuf.in_ (Reader.buf x)) →
  Reader.padding x + len (xzBuf.in_ (Reader.buf x)) < 2 ^ 63 →
  let b := Reader.buf x in
  let z := Z.of_nat (leading_zeros (drop (Z.to_nat (xzBuf.inPos b)) (xzBuf.in_ b))) in
  Z.rem (Reader.padding x + z) 4 ≠ 0 →
  ∃ ret x', decode x = Ok (ret, x')
            ∧ (xzBuf.inPos b + z = len (xzBuf.in_ b) → Reader.rEOF x = true →
               ret = xzBufError ∧ (switchRet ret x' None).2 = Some ErrBuf)
            ∧ (xzBuf.inPos b + z = len (xzBuf.in_ b) → Reader.rEOF x = false →
               ret = xzOK)
            ∧ (xzBuf.inPos b + z < len (xzBuf.in_ b) →
               ret = xzDataError ∧ (switchRet ret x' None).2 = Some ErrData).
Proof.
  intros Hp Hi Hov b z Hrem.
  rewrite decode_padding by (done || lia).
  pose proof (leading_zeros_le (drop (Z.to_nat (xzBuf.inPos b)) (xzBuf.in_ b))) as Hz.
  rewrite length_drop in Hz. fold b.
  rewrite iter_int_incr by (subst b; unfold len in *; lia).
  fold z. cbn [Reader.padding Reader.set_padding].
  rewrite !(bool_decide_true (Z.rem _ _ ≠ 0)) by done.
  destruct (decide (xzBuf.inPos b + z = len (xzBuf.in_ b))) as [Hend | Hend].
  - rewrite !(bool_decide_true _ Hend).
    destruct (Reader.rEOF x); cbn [andb]; eexists _, _;
      (split; [reflexivity |]); repeat split; (done || lia).
  - rewrite !(bool_decide_false _ Hend). cbn [andb].
    eexists _, _. split; [reflexivity |]. repeat split; (done || lia).
Qed.

(** With nothing pending the copy loop does nothing. *)
Lemma copyOut_idle (fuel : nat) s :
  xzBuf.outPos (Reader.buf (rd s)) ≤ Reader.outPos (rd s) →
  copyOut fuel s = Ok s.
Proof.
  intros Hp. destruct fuel as [|fuel]; [done |]. simpl.
  by rewrite bool_decide_false by lia.
Qed.

(** A finished Reader with nothing pending: [Read] returns
    [(0, io.EOF)] and changes nothing. *)
Lemma Read_finished_idle (fuel : nat) x (q : list byte) :
  Inv x →
  Reader.err x = None →
  Reader.dEOF x = true →
  pending x = [] →
  ∃ s', Read (S fuel) x q = Ok (Break s')
        ∧ seen s' = ([], Some io_EOF) ∧ rd s' = x.
Proof.
  intros HI He Hd Hp.
  rewrite (Read_drain fuel x q io_EOF HI) by (by right).
  rewrite Hp. cbn [length Nat.min take app].
  eexists. split; [reflexivity |].
  unfold seen. cbn [rd p n lerr]. rewrite delivered_0.
  by rewrite bool_decide_true by lia.
Qed.

(** C4 (the case the code misses).  A Reader in multistream mode is in
    the padding after a stream whose last decoded bytes fit in the
    caller's buffer; the upstream has already reported [io.EOF],
    together with the data that is now in the input buffer; there, [k]
    bytes of padding that make the total a multiple of four are followed
    by a byte [c] that is not zero.  [Read] does not take [c] as the
    start of the next stream: it delivers the pending bytes, returns
    [io.EOF] and marks the decoder as finished, with [c] still unread in
    the input buffer; every later [Read] returns [(0, io.EOF)] and
    [Reset] reports that there is no follow-on stream. *)
Theorem next_stream_lost_after_EOF (fuel : nat) x (q : list byte) (k : nat)
    (c : byte) (rest : list byte) :
  Inv x →
  Reader.err x = None →
  Reader.dEOF x = false →
  (length (pending x) ≤ length q)%nat →
  Reader.multistream x = true →
  Reader.rEOF x = true →
  0 ≤ Reader.padding x →
  Reader.padding x + len (xzBuf.in_ (Reader.buf x)) < 2 ^ 63 →
  Z.rem (Reader.padding x + Z.of_nat k) 4 = 0 →
  drop (Z.to_nat (xzBuf.inPos (Reader.buf x))) (xzBuf.in_ (Reader.buf x))
  = replicate k x00 ++ c :: rest →
  c ≠ x00 →
  ∃ s', Read (S (S fuel)) x q = Ok (Break s')
        ∧ seen s' = (pending x, Some io_EOF)
        ∧ Reader.dEOF (rd s') = true
        ∧ index (xzBuf.in_ (Reader.buf (rd s'))) (xzBuf.inPos (Reader.buf (rd s')))
          = Some c
        ∧ (∀ (fuel' : nat) (q' : list byte),
             ∃ s'', Read (S fuel') (rd s') q' = Ok (Break s'')
                    ∧ seen s'' = ([], Some io_EOF) ∧ rd s'' = rd s')
        ∧ Reset (rd s') = (rd s', Some io_EOF).
Proof.
  intros HI He HdEOF Hpend Hm HrEOF Hp Hov Hrem Hdrop Hc.
  destruct (padding_end_with_EOF_seen fuel (LState x q 0 (Reader.err x)) k c rest)
    as (s' & Hr & Hseen & HI' & Hp' & He' & Hd' & Hr' & Hin & Hpos);
    cbn [rd p n lerr]; try done.
  { split; [done |]. simpl. pose proof (len_nonneg q). lia. }
  { unfold len. lia. }
  exists s'. split; [exact Hr |].
  cbn [rd p n lerr] in *.
  split; [exact Hseen |]. split; [done |]. split; [| split].
  - rewrite Hin, Hpos. destruct HI as [[Hi _] _].
    apply index_Some; [lia |].
    replace (Z.to_nat (xzBuf.inPos (Reader.buf x) + Z.of_nat k))
      with (Z.to_nat (xzBuf.inPos (Reader.buf x)) + k)%nat by lia.
    rewrite <- lookup_drop, Hdrop.
    rewrite lookup_app_r by (by rewrite length_replicate).
    by rewrite length_replicate, Nat.sub_diag.
  - intros fuel' q'. by apply Read_finished_idle.
  - unfold Reset. by rewrite Hd', Hr'.
Qed.

(** C3 (the case the code misses).  A new Reader, in multistream mode,
    reads from an upstream whose first [Read] returns, together with
    [io.EOF], the bytes [X1 ++ c :: X2'] of two streams: the decoder run
    on them consumes exactly [X1], writes its plaintext [P1] and reports
    the end of the stream, and [c], not zero, starts the second stream.
    Whatever that second stream holds, reading with a buffer that has
    room for [P1] yields [P1] and [io.EOF]; every later [Read] returns
    [(0, io.EOF)], and [Reset] reports that there is no follow-on
    stream. *)
Theorem second_stream_lost_after_EOF (fuel : nat) (u u' : U) (dictMax : Z) x
    (X1 X2' P1 out' : list byte) (c : byte) (d' : D) (q : list byte) :
  NewReader (Some u) dictMax = (Some x, None) →
  io_Read u bufSize = (X1 ++ c :: X2', Some io_EOF, u') →
  len (X1 ++ c :: X2') ≤ bufSize →
  c ≠ x00 →
  xzDecRun (Reader.dec x)
    (xzBuf.mk (X1 ++ c :: X2') 0 (replicate (Z.to_nat bufSize) x00) 0)
  = (xzStreamEnd, d', xzBuf.mk (X1 ++ c :: X2') (len X1) out' (len P1)) →
  take (length P1) out' = P1 →
  (length P1 ≤ length q)%nat →
  ∃ s', Read (S (S (S fuel))) x q = Ok (Break s')
        ∧ seen s' = (P1, Some io_EOF)
        ∧ (∀ (fuel' : nat) (q' : list byte),
             ∃ s'', Read (S fuel') (rd s') q' = Ok (Break s'')
                    ∧ seen s'' = ([], Some io_EOF) ∧ rd s'' = rd s')
        ∧ Reset (rd s') = (rd s', Some io_EOF).
Proof.
  intros Hnew Hread Hlen Hc Hrun Hout Hq.
  unfold NewReader in Hnew.
  set (out0 := replicate (Z.to_nat bufSize) x00) in *.
  injection Hnew as <-.
  set (dm := if bool_decide (dictMax = 0) then DefaultDictMax else dictMax) in *.
  set (X := X1 ++ c :: X2') in *.
  (* the first turn reads the two streams and decodes the first *)
  set (x1 := Reader.mk u' true true false 0 0
               (xzBuf.mk X (len X1) out' (len P1)) d' None).
  set (x0 := Reader.mk u true false false (-1) 0 _ (xzDecInit dm) None).
  assert (Hturn : Read_iter (LState x0 q 0 None)
                  = Ok (Continue (LState x1 q 0 None))).
  { unfold Read_iter.
    rewrite copyOut_idle by (simpl; lia).
    cbn [rbind rd p n lerr].
    rewrite bool_decide_false by (simpl; lia).
    rewrite bool_decide_false by (by intros []).
    unfold refill. simpl Reader.dEOF. cbn iota.
    rewrite bool_decide_true by done. simpl Reader.rEOF. cbn [negb andb].
    simpl Reader.r. rewrite Hread.
    rewrite bool_decide_false by (by intros []).
    rewrite bool_decide_true by done.
    cbn [rbind]. unfold decode.
    rewrite bool_decide_false by (simpl; lia).
    simpl in Hrun. simpl.
    unfold xzBuf.set_outPos, xzBuf.set_inPos, xzBuf.set_in. simpl.
    rewrite Hrun. simpl. done. }
  unfold Read. fold x0. change (Reader.err x0) with (@None error).
  cbn [Read_loop]. rewrite Hturn. cbn [rbind].
  change (rbind (Read_iter (LState x1 q 0 None)) _)
    with (Read_loop (S (S fuel)) (LState x1 q 0 None)).
  (* the second turn ends the empty padding, the third returns io.EOF *)
  assert (HP1 : len P1 ≤ len out').
  { apply (f_equal length) in Hout. rewrite length_take in Hout.
    unfold len. lia. }
  assert (Hpend : pending x1 = P1).
  { unfold pending. simpl. rewrite drop_0, Z.sub_0_r.
    unfold len. by rewrite Nat2Z.id. }
  destruct (padding_end_with_EOF_seen fuel (LState x1 q 0 None) 0 c X2')
    as (s' & Hr & Hseen & HI' & Hp' & He' & Hd' & Hr' & Hin & Hpos);
    cbn [rd p n lerr]; try done.
  { split; [| simpl; pose proof (len_nonneg q); lia].
    unfold Inv, buf_ok. simpl. subst X. unfold len in *.
    rewrite length_app. simpl. lia. }
  { subst x1. cbn [rd Reader.padding Reader.buf xzBuf.in_].
    change bufSize with 8192 in Hlen. lia. }
  { simpl. unfold len. rewrite Nat2Z.id. subst X.
    by rewrite drop_app_length. }
  { rewrite Hpend. unfold len. lia. }
  exists s'. split; [exact Hr |].
  cbn [rd p n lerr] in *. rewrite Hpend in Hseen.
  split; [exact Hseen |]. split.
  - intros fuel' q'. by apply Read_finished_idle.
  - unfold Reset. by rewrite Hd', Hr'.
Qed.

(** The copy loop when all the pending bytes fit in [p]. *)
Lemma copyOut_fits s :
  LInv s →
  (length (pending (rd s)) ≤ Z.to_nat (len (p s) - n s))%nat →
  ∃ s1, copyOut (Z.to_nat (len (p s) - n s)) s = Ok s1
        ∧ rd s1 = delivered (length (pending (rd s))) (rd s)
        ∧ n s1 = n s + len (pending (rd s))
        ∧ lerr s1 = lerr s
        ∧ len (p s1) = len (p s)
        ∧ take (Z.to_nat (n s1)) (p s1)
          = take (Z.to_nat (n s)) (p s) ++ pending (rd s).
Proof.
  intros [[[Hi Ho] Hr] Hn] Hfit.
  assert (Hpl : length (pending (rd s))
                = Z.to_nat (xzBuf.outPos (Reader.buf (rd s)) - Reader.outPos (rd s)))
    by (apply pending_length; lia).
  rewrite copyOut_spec by lia.
  set (j := length (pending (rd s))) in *.
  replace (Z.to_nat (len (p s) - n s) `min` (j `min` Z.to_nat (len (p s) - n s)))%nat
    with j by lia.
  eexists. split; [reflexivity |]. cbn [rd p n lerr].
  rewrite (take_ge (pending (rd s)) j) by (subst j; lia).
  repeat split; try done.
  - unfold len in *. rewrite !length_app, length_take, length_drop. lia.
  - rewrite app_assoc, take_app_length'; [done |].
    rewrite length_app, length_take. unfold len in *. lia.
Qed.

(** A turn of the loop that delivers every pending byte and gets
    through the part that reads from upstream is a call of [decode] and
    the [switch]. *)
Lemma Read_iter_decodes s s1 x1 :
  copyOut (Z.to_nat (len (p s) - n s)) s = Ok s1 →
  xzBuf.outPos (Reader.buf (rd s1)) ≤ Reader.outPos (rd s1) →
  lerr s1 = None →
  Reader.dEOF (rd s1) = false →
  refill (rd s1) = Ok (inl x1) →
  Read_iter s
  = (d ←! decode x1;
     Ok (Continue (LState (Reader.set_err (switchRet d.1 d.2 None).2
                             (switchRet d.1 d.2 None).1)
                     (p s1) (n s1) (switchRet d.1 d.2 None).2))).
Proof.
  intros Hc Hdel Hl Hd Hf. unfold Read_iter. rewrite Hc. cbn [rbind].
  rewrite bool_decide_false by lia.
  rewrite Hl. rewrite bool_decide_false by (by intros []).
  rewrite Hd, Hf. cbn [rbind].
  destruct (decode x1) as [[ret x']|]; [| done]. cbn [rbind fst snd].
  by destruct (switchRet ret x' None).
Qed.

(** With [io.EOF] seen, [Read] does not read from upstream. *)
Lemma refill_after_EOF x : Reader.rEOF x = true → refill x = Ok (inl x).
Proof. intros Hr. unfold refill. by rewrite Hr, andb_false_r. Qed.

(** Reading from upstream does not depend on [r.outPos], and leaves it
    as it is. *)
Lemma refill_delivered (j : nat) x x1 :
  refill x = Ok (inl x1) → refill (delivered j x) = Ok (inl (delivered j x1)).
Proof.
  unfold refill. destruct x as [u m re de pd o b d e].
  cbn [delivered Reader.set_outPos Reader.buf Reader.rEOF Reader.r Reader.outPos].
  destruct (bool_decide _ && negb re).
  - destruct (io_Read u bufSize) as [[data oe] u'].
    destruct oe as [e'|]; repeat case_bool_decide; try done;
      by intros [= <-].
  - by intros [= <-].
Qed.

(** What reading from upstream leaves of the Reader. *)
Lemma refill_flags x x1 :
  refill x = Ok (inl x1) →
  Reader.multistream x1 = Reader.multistream x
  ∧ Reader.dEOF x1 = Reader.dEOF x
  ∧ Reader.padding x1 = Reader.padding x
  ∧ Reader.outPos x1 = Reader.outPos x
  ∧ Reader.dec x1 = Reader.dec x
  ∧ Reader.err x1 = Reader.err x.
Proof.
  unfold refill. destruct x as [u m re de pd o b d e].
  cbn [Reader.buf Reader.rEOF Reader.r].
  destruct (bool_decide _ && negb re).
  - destruct (io_Read u bufSize) as [[data oe] u'].
    destruct oe as [e'|]; repeat case_bool_decide; try done;
      by intros [= <-].
  - by intros [= <-].
Qed.

(** The end of a stream with [io.EOF] seen and input left.  In the
    first turn of the loop the input buffer is that of [x1], with
    [io.EOF] reported by an upstream read made before or in this turn,
    and the decoder, run on it, ends the stream before [k] bytes of
    padding and a byte [c] that is not zero.  Whatever the mode, the
    loop of [Read] delivers the decoded bytes, resets the decoder,
    marks it as finished and returns [io.EOF], with [c] unread. *)
Lemma stream_end_with_EOF_seen (fuel : nat) s x1 (k : nat) (c : byte)
    (rest : list byte) (d' : D) (b' : xzBuf.t) :
  LInv s →
  lerr s = None →
  Reader.err (rd s) = None →
  Reader.dEOF (rd s) = false →
  Reader.padding (rd s) < 0 →
  refill (rd s) = Ok (inl x1) →
  Reader.rEOF x1 = true →
  xzDecRun (Reader.dec x1) (xzBuf.set_outPos 0 (Reader.buf x1))
  = (xzStreamEnd, d', b') →
  buf_ok b' →
  len (xzBuf.in_ b') < 2 ^ 63 →
  Z.rem (Z.of_nat k) 4 = 0 →
  drop (Z.to_nat (xzBuf.inPos b')) (xzBuf.in_ b') = replicate k x00 ++ c :: rest →
  c ≠ x00 →
  (length (pending (rd s)) + Z.to_nat (xzBuf.outPos b')
   ≤ Z.to_nat (len (p s) - n s))%nat →
  ∃ s', Read_loop (S (S (S fuel))) s = Ok (Break s')
        ∧ seen s' = (take (Z.to_nat (n s)) (p s) ++ pending (rd s)
                       ++ take (Z.to_nat (xzBuf.outPos b')) (xzBuf.out b'),
                     Some io_EOF)
        ∧ rd s' = Reader.mk (Reader.r x1) (Reader.multistream (rd s))
                    true true (-1) (xzBuf.outPos b')
                    (xzBuf.set_inPos (xzBuf.inPos b' + Z.of_nat k) b')
                    (xzDecReset d') None.
Proof.
  intros HL Hl He HdEOF Hp Hfill HrEOF Hrun Hb' Hov Hrem Hdrop Hc Hfit.
  destruct (copyOut_fits s HL) as (s1 & Hcopy & Hrd & Hn1 & Hl1 & Hlen1 & Htake1);
    [lia |].
  pose proof HL as [[[Hi Ho] Hr] Hn].
  assert (Hpl : length (pending (rd s))
                = Z.to_nat (xzBuf.outPos (Reader.buf (rd s)) - Reader.outPos (rd s)))
    by (apply pending_length; lia).
  destruct (refill_flags _ _ Hfill) as (Hm1 & Hd1 & Hp1 & _ & _ & He1).
  (* the first turn runs the decoder, which ends the stream *)
  set (x2 := Reader.mk (Reader.r x1) (Reader.multistream (rd s)) true false 0 0
               b' d' None).
  assert (Hturn1 : Read_iter s = Ok (Continue (LState x2 (p s1) (n s1) None))).
  { rewrite (Read_iter_decodes s s1 (delivered (length (pending (rd s))) x1));
      try done.
    - unfold decode.
      rewrite bool_decide_false by (simpl; lia).
      cbn [delivered Reader.set_outPos Reader.set_buf Reader.set_dec Reader.buf
             Reader.dec].
      rewrite Hrun. cbn [rbind fst snd switchRet].
      rewrite bool_decide_false by (simpl; lia).
      subst x2. unfold Reader.set_err, Reader.set_padding, Reader.set_buf,
        Reader.set_dec, Reader.set_outPos, delivered. cbn.
      by rewrite HrEOF, Hm1, Hd1, HdEOF.
    - rewrite Hrd. simpl. lia.
    - by rewrite Hl1.
    - by rewrite Hrd.
    - rewrite Hrd. by apply refill_delivered. }
  cbn [Read_loop]. rewrite Hturn1. cbn [rbind].
  set (s2 := LState x2 (p s1) (n s1) None).
  change (rbind (Read_iter s2) _) with (Read_loop (S (S fuel)) s2).
  (* the second turn ends the padding *)
  destruct Hb' as [Hi' Ho'].
  assert (HL2 : LInv s2).
  { subst s2 x2. unfold LInv, Inv, buf_ok. cbn. unfold len in *. lia. }
  assert (Hp2 : pending x2 = take (Z.to_nat (xzBuf.outPos b')) (xzBuf.out b')).
  { unfold pending. subst x2. cbn. by rewrite drop_0, Z.sub_0_r. }
  assert (Hpl2 : length (pending x2) = Z.to_nat (xzBuf.outPos b')).
  { rewrite Hp2, length_take. unfold len in *. lia. }
  destruct (copyOut_fits s2 HL2) as (s3 & Hcopy3 & Hrd3 & Hn3 & Hl3 & Hlen3 & Htake3).
  { subst s2. cbn [rd p n]. rewrite Hpl2, Hlen1, Hn1. unfold len in *. lia. }
  unfold s2 in Hrd3, Hn3, Hl3, Hlen3, Htake3.
  cbn [rd p n lerr] in Hrd3, Hn3, Hl3, Hlen3, Htake3.
  assert (Hlz : leading_zeros (drop (Z.to_nat (xzBuf.inPos b')) (xzBuf.in_ b')) = k)
    by (rewrite Hdrop; by apply leading_zeros_replicate).
  assert (Hk : xzBuf.inPos b' + Z.of_nat k < len (xzBuf.in_ b')).
  { apply (f_equal length) in Hdrop.
    rewrite length_drop, length_app, length_replicate in Hdrop. simpl in Hdrop.
    unfold len. lia. }
  set (x4 := Reader.mk (Reader.r x1) (Reader.multistream (rd s)) true true (-1)
               (xzBuf.outPos b')
               (xzBuf.set_inPos (xzBuf.inPos b' + Z.of_nat k) b')
               (xzDecReset d') None).
  assert (Hturn2 : Read_iter s2 = Ok (Continue (LState x4 (p s3) (n s3) None))).
  { rewrite (Read_iter_decodes s2 s3 (rd s3)); try done.
    - rewrite decode_padding; rewrite Hrd3; subst x2;
        cbn [delivered Reader.set_outPos Reader.buf Reader.padding Reader.rEOF
               Reader.dec]; [| lia | lia].
      rewrite Hlz, iter_int_incr by (unfold len in *; lia).
      rewrite !(bool_decide_false (_ = len _)) by lia.
      cbn [andb Reader.padding Reader.set_padding].
      rewrite bool_decide_false by (intros Hne; apply Hne; by rewrite Z.add_0_l).
      cbn [rbind fst snd switchRet].
      rewrite bool_decide_true by (simpl; lia).
      cbn. rewrite orb_true_r. subst x4.
      unfold Reader.set_err, Reader.set_dEOF, Reader.set_padding, Reader.set_buf,
        Reader.set_dec, Reader.set_outPos, delivered. cbn.
      rewrite Hpl2.
      by replace (0 + Z.of_nat (Z.to_nat (xzBuf.outPos b'))) with (xzBuf.outPos b')
        by lia.
    - rewrite Hrd3. subst x2. cbn. rewrite Hpl2. lia.
    - rewrite Hrd3. by subst x2.
    - rewrite Hrd3. apply refill_after_EOF. by subst x2. }
  cbn [Read_loop]. rewrite Hturn2. cbn [rbind].
  (* the third turn returns io.EOF *)
  set (s4 := LState x4 (p s3) (n s3) None).
  assert (HI4 : Inv x4).
  { subst x4. unfold Inv, buf_ok. cbn. lia. }
  assert (Hp4 : pending x4 = []).
  { apply pending_nil. subst x4. cbn. lia. }
  pose proof (Read_loop_drain fuel s4 io_EOF HI4) as Hdrain.
  unfold s4 in Hdrain. cbn [rd p n lerr] in Hdrain.
  rewrite Hp4 in Hdrain. cbn [length Nat.min take app] in Hdrain.
  change (Read_loop (S fuel) (LState x4 (p s3) (n s3) None)) with (rbind (Read_iter s4)
    (λ c, match c with Continue s' => Read_loop fuel s' | Break s' => Ok (Break s') end))
    in Hdrain.
  rewrite Hdrain; [| | done | by right].
  2:{ rewrite Hn3, Hlen3, Hlen1, Hn1. unfold len in *. lia. }
  eexists. split; [reflexivity |].
  unfold seen. cbn [rd p n lerr]. rewrite delivered_0.
  rewrite bool_decide_true by lia.
  split; [| done].
  f_equal. rewrite Nat.add_0_r, take_drop, Z.add_0_r.
  by rewrite Htake3, Htake1, Hp2, <- app_assoc.
Qed.

(** C5 (the case the code misses).  A Reader in multistream mode is
    decoding a stream.  The upstream has reported [io.EOF], in an
    earlier read or in the read of this call, which returned it together
    with data; in both cases [x1] is the Reader with the input buffer
    the decoder is run on.  The decoder ends the stream with more input
    available: [k] bytes of padding, a multiple of four, then a byte [c]
    that is not zero, the first of the next stream.  [Read] resets the
    decoder but does not continue with the next stream: it delivers the
    decoded bytes and reports [io.EOF], as in single-stream mode, marks
    the decoder as finished and leaves [c] unread.  This persists:
    [Reset] reports that there is no follow-on stream and changes
    nothing, and after [Multistream], whatever its argument, every
    [Read] returns [(0, io.EOF)]. *)
Theorem multistream_end_of_file_with_input_left (fuel : nat) x x1
    (q : list byte) (k : nat) (c : byte) (rest : list byte) (d' : D)
    (b' : xzBuf.t) :
  Inv x →
  Reader.err x = None →
  Reader.dEOF x = false →
  Reader.multistream x = true →
  Reader.padding x = -1 →
  refill x = Ok (inl x1) →
  Reader.rEOF x1 = true →
  xzDecRun (Reader.dec x1) (xzBuf.set_outPos 0 (Reader.buf x1))
  = (xzStreamEnd, d', b') →
  buf_ok b' →
  len (xzBuf.in_ b') < 2 ^ 63 →
  Z.rem (Z.of_nat k) 4 = 0 →
  drop (Z.to_nat (xzBuf.inPos b')) (xzBuf.in_ b') = replicate k x00 ++ c :: rest →
  c ≠ x00 →
  (length (pending x) + Z.to_nat (xzBuf.outPos b') ≤ length q)%nat →
  ∃ s', Read (S (S (S fuel))) x q = Ok (Break s')
        ∧ seen s' = (pending x ++ take (Z.to_nat (xzBuf.outPos b')) (xzBuf.out b'),
                     Some io_EOF)
        ∧ rd s' = Reader.mk (Reader.r x1) true true true (-1) (xzBuf.outPos b')
                    (xzBuf.set_inPos (xzBuf.inPos b' + Z.of_nat k) b')
                    (xzDecReset d') None
        ∧ index (xzBuf.in_ (Reader.buf (rd s'))) (xzBuf.inPos (Reader.buf (rd s')))
          = Some c
        ∧ Reset (rd s') = (rd s', Some io_EOF)
        ∧ ∀ (ok : bool) (fuel' : nat) (q' : list byte),
            ∃ s'', Read (S fuel') (Multistream ok (rd s')) q' = Ok (Break s'')
                   ∧ seen s'' = ([], Some io_EOF)
                   ∧ rd s'' = Multistream ok (rd s').
Proof.
  intros HI He HdEOF Hm Hp Hfill HrEOF Hrun Hb' Hov Hrem Hdrop Hc Hfit.
  destruct (stream_end_with_EOF_seen fuel (LState x q 0 (Reader.err x)) x1 k c rest
              d' b')
    as (s' & Hr & Hseen & Hrd); cbn [rd p n lerr]; try done.
  { split; [done |]. simpl. pose proof (len_nonneg q). lia. }
  { lia. }
  { unfold len. lia. }
  exists s'. split; [exact Hr |].
  cbn [rd p n lerr] in *. rewrite Hm in Hrd.
  split; [exact Hseen |]. split; [exact Hrd |].
  destruct Hb' as [Hi' Ho'].
  assert (Hk : xzBuf.inPos b' + Z.of_nat k < len (xzBuf.in_ b')).
  { apply (f_equal length) in Hdrop.
    rewrite length_drop, length_app, length_replicate in Hdrop. simpl in Hdrop.
    unfold len. lia. }
  rewrite Hrd. cbn [Reader.buf xzBuf.set_inPos xzBuf.in_ xzBuf.inPos].
  split; [| split].
  - apply index_Some; [lia |].
    replace (Z.to_nat (xzBuf.inPos b' + Z.of_nat k))
      with (Z.to_nat (xzBuf.inPos b') + k)%nat by lia.
    rewrite <- lookup_drop, Hdrop.
    rewrite lookup_app_r by (by rewrite length_replicate).
    by rewrite length_replicate, Nat.sub_diag.
  - done.
  - intros ok fuel' q'. apply Read_finished_idle; try done.
    + unfold Inv, buf_ok. cbn. lia.
    + apply pending_nil. cbn. lia.
Qed.

End Padding.

(** ** The instances keep the contracts *)

Section Instances.

Lemma fresh_NewReader (u : Script.t) :
  NewReader (Some u) 0 = (Some (Stored.fresh u), None).
Proof. reflexivity. Qed.

Lemma Script_contract : io_Read_contract (U := Script.t).
Proof.
  intros u k Hk. unfold io_Read, Script.reader.
  destruct u as [|[data e] u]; simpl; [unfold len; simpl; lia |].
  case_bool_decide; simpl; [done |].
  unfold len. rewrite length_take. lia.
Qed.

Lemma Stored_main_contract (fuel : nat) (f : Stored.phase) (b : xzBuf.t) :
  buf_ok b →
  let b' := (Stored.main fuel f b).2 in
  xzBuf.in_ b' = xzBuf.in_ b
  ∧ len (xzBuf.out b') = len (xzBuf.out b)
  ∧ xzBuf.inPos b ≤ xzBuf.inPos b' ≤ len (xzBuf.in_ b)
  ∧ xzBuf.outPos b ≤ xzBuf.outPos b' ≤ len (xzBuf.out b).
Proof.
  revert f b. induction fuel as [|fuel IH]; intros f b [Hi Ho]; simpl.
  - repeat split; lia.
  - assert (Hstay : xzBuf.in_ b = xzBuf.in_ b
                    ∧ len (xzBuf.out b) = len (xzBuf.out b)
                    ∧ xzBuf.inPos b ≤ xzBuf.inPos b ≤ len (xzBuf.in_ b)
                    ∧ xzBuf.outPos b ≤ xzBuf.outPos b ≤ len (xzBuf.out b))
      by (repeat split; lia).
    assert (Hadv : ∀ c, xzBuf.in_ b !! Z.to_nat (xzBuf.inPos b) = Some c →
                        xzBuf.inPos b + 1 ≤ len (xzBuf.in_ b)).
    { intros c Hc. apply lookup_lt_Some in Hc. unfold len. lia. }
    destruct f; try done.
    + case_bool_decide; [| done].
      destruct (xzBuf.in_ b !! Z.to_nat (xzBuf.inPos b)) as [c|] eqn:Hc; [| done].
      destruct (Byte.eqb c xfd); [| done].
      specialize (Hadv c eq_refl).
      destruct (IH Stored.PTag (Stored.consume b)) as (H1 & H2 & H3 & H4).
      { unfold buf_ok. simpl. lia. }
      simpl in *. repeat split; (congruence || lia).
    + case_bool_decide; [| done].
      destruct (xzBuf.in_ b !! Z.to_nat (xzBuf.inPos b)) as [c|] eqn:Hc; [| done].
      specialize (Hadv c eq_refl).
      destruct (Byte.eqb c x00); [simpl; repeat split; lia |].
      destruct (Byte.eqb c x01); [| done].
      destruct (IH Stored.PLiteral (Stored.consume b)) as (H1 & H2 & H3 & H4).
      { unfold buf_ok. simpl. lia. }
      simpl in *. repeat split; (congruence || lia).
    + case_bool_decide; [| done].
      destruct (xzBuf.in_ b !! Z.to_nat (xzBuf.inPos b)) as [c|] eqn:Hc; [| done].
      specialize (Hadv c eq_refl).
      case_bool_decide; [| done].
      destruct (IH Stored.PTag (Stored.emit c (Stored.consume b)))
        as (H1 & H2 & H3 & H4).
      { unfold buf_ok, len. simpl. rewrite length_insert. unfold len in *. lia. }
      unfold len in *. simpl in *. rewrite length_insert in *.
      repeat split; (congruence || lia).
Qed.

Lemma Stored_contract : xzDecRun_contract (D := Stored.t).
Proof.
  intros d b Hb. unfold xzDecRun, Stored.decoder, Stored.run.
  pose proof (Stored_main_contract (length (xzBuf.in_ b)) (Stored.ph d) b Hb) as Hm.
  destruct (Stored.main _ _ b) as [[ret f] b']. simpl in Hm.
  by case_bool_decide.
Qed.

End Instances.

(** ** Examples on the stored-stream decoder *)

Section Examples.

(** A Reader on a source whose first byte is not the magic byte returns
    [ErrFormat], which then sticks. *)
Lemma recorded_error_is_sticky_witness :
  ∃ s',
    Read 2 (Stored.fresh [([x00], None)]) buf8 = Ok (Break s')
    ∧ lerr s' = Some ErrFormat
    ∧ ErrFormat ≠ io_EOF
    ∧ Reader.err (rd s') = Some ErrFormat
    ∧ (∀ (fuel' : nat) (q' : list byte),
         Read (S fuel') (rd s') q' = Ok (Break (LState (rd s') q' 0 (Some ErrFormat))))
    ∧ (∀ (fuel' : nat) (qs : list (list byte)),
         Reads (S fuel') (rd s') qs
         = Some (map (λ _, ([], Some ErrFormat)) qs, rd s')).
Proof.
  eexists.
  split; [vm_compute; reflexivity |].
  split; [reflexivity |]. split; [discriminate |]. split; [reflexivity |].
  apply (recorded_error_is_sticky 2 (Stored.fresh [([x00], None)]) buf8 _ ErrFormat);
    [vm_compute; reflexivity | reflexivity | discriminate | reflexivity].
Defined.

(** C1 (as stated) fails for an error of the upstream reader.  The
    source fails once with a timeout and then delivers the stream of
    ["Hi"]: the first [Read] returns the timeout, which is not recorded,
    and the next one does not return zero bytes and the timeout again
    but ["Hi"] and [io.EOF]. *)
Lemma upstream_error_is_not_sticky :
  ∃ s1 s2,
    Read 1 (Stored.fresh [([], Some (ErrForeign "timeout")); (Stored.hi, None)]) buf8
    = Ok (Break s1)
    ∧ seen s1 = ([], Some (ErrForeign "timeout"))
    ∧ ErrForeign "timeout" ≠ io_EOF
    ∧ Reader.err (rd s1) = None
    ∧ Read 4 (rd s1) buf8 = Ok (Break s2)
    ∧ seen s2 = ([x48; x69], Some io_EOF)
    ∧ ¬ (∀ (fuel' : nat) (q' : list byte),
           Read (S fuel') (rd s1) q'
           = Ok (Break (LState (rd s1) q' 0 (Some (ErrForeign "timeout"))))).
Proof.
  eexists _, _.
  split; [vm_compute; reflexivity |].
  split; [reflexivity |]. split; [discriminate |]. split; [reflexivity |].
  split; [vm_compute; reflexivity |].
  split; [reflexivity |].
  intros H. specialize (H 3%nat buf8).
  apply (f_equal (λ c, match c with Ok c' => lerr (ctl_state c') | Panic => None end)) in H.
  vm_compute in H. discriminate H.
Qed.

(** The decoder writes ["Hi"] and then meets a corrupt tag.  Read with
    buffers of one byte, the two bytes come first, and [ErrData] with
    the second of them. *)
Lemma decoded_bytes_precede_error_witness :
  ∃ s1 s2 x',
    Read_iter (LState (Stored.fresh [([xfd; x01; x48; x01; x69; x07], None)])
                 [x00] 0 None)
    = Ok (Continue s1)
    ∧ lerr s1 = Some ErrData
    ∧ pending (rd s1) = [x48; x69]
    ∧ Read_loop 1 s1 = Ok (Break s2)
    ∧ seen s2 = ([x48], None)
    ∧ Reads 1 (rd s2) [[x00]; [x00]]
      = Some ([([x69], Some ErrData); ([], Some ErrData)], x').
Proof.
  set (s := LState (Stored.fresh [([xfd; x01; x48; x01; x69; x07], None)])
              [x00] 0 None).
  assert (HL : LInv s) by (vm_compute; repeat split; discriminate).
  eexists.
  assert (Hit : Read_iter s = Ok (Continue ?[s1])) by (vm_compute; reflexivity).
  destruct (decoded_bytes_precede_error 0 s _ ErrData [[x00]; [x00]]
              Stored_contract HL Hit eq_refl)
    as (s2 & x' & H1 & H2 & H3 & _).
  exists s2, x'.
  split; [exact Hit |]. split; [reflexivity |]. split; [reflexivity |].
  split; [exact H1 |]. split; [exact H2 |]. exact H3.
Defined.

(** Two streams of ["Hi"] that the upstream hands over in one read,
    together with [io.EOF]: the Reader yields the first ["Hi"] only. *)
Lemma second_stream_lost_after_EOF_witness :
  ∃ s',
    Read 3 (Stored.fresh [(Stored.hi ++ Stored.hi, Some io_EOF)]) buf8
    = Ok (Break s')
    ∧ seen s' = ([x48; x69], Some io_EOF)
    ∧ (∀ (fuel' : nat) (q' : list byte),
         ∃ s'', Read (S fuel') (rd s') q' = Ok (Break s'')
                ∧ seen s'' = ([], Some io_EOF) ∧ rd s'' = rd s')
    ∧ Reset (rd s') = (rd s', Some io_EOF).
Proof.
  refine (second_stream_lost_after_EOF 0
            [(Stored.hi ++ Stored.hi, Some io_EOF)] [] 0 _
            Stored.hi [x01; x48; x01; x69; x00] [x48; x69] _ xfd _ buf8
            (fresh_NewReader _) _ _ _ _ _ _).
  - reflexivity.
  - vm_compute. discriminate.
  - discriminate.
  - vm_compute. reflexivity.
  - reflexivity.
  - vm_compute. lia.
Defined.

(** The same two streams with [io.EOF] returned by a read of its own:
    the Reader yields ["HiHi"]. *)
Example two_streams_then_EOF :
  ∃ s',
    Read 5 (Stored.fresh [(Stored.hi ++ Stored.hi, None)]) buf8 = Ok (Break s')
    ∧ seen s' = ([x48; x69; x48; x69], Some io_EOF).
Proof. eexists. split; [vm_compute; reflexivity | reflexivity]. Qed.

(** Two streams with four bytes of padding between them, handed over
    with [io.EOF]; a first [Read] of one byte leaves the Reader in the
    padding with ["i"] pending.  The next [Read] delivers ["i"] and
    reports [io.EOF], with the second stream unread. *)
Lemma next_stream_lost_after_EOF_witness :
  ∃ s0 s',
    Read 2 (Stored.fresh [(Stored.hi ++ [x00; x00; x00; x00] ++ Stored.hi,
                           Some io_EOF)]) [x00]
    = Ok (Break s0)
    ∧ seen s0 = ([x48], None)
    ∧ Reader.multistream (rd s0) = true
    ∧ Reader.rEOF (rd s0) = true
    ∧ Reader.padding (rd s0) = 0
    ∧ Read 2 (rd s0) buf8 = Ok (Break s')
    ∧ seen s' = ([x69], Some io_EOF)
    ∧ Reader.dEOF (rd s') = true
    ∧ index (xzBuf.in_ (Reader.buf (rd s'))) (xzBuf.inPos (Reader.buf (rd s')))
      = Some xfd
    ∧ (∀ (fuel' : nat) (q' : list byte),
         ∃ s'', Read (S fuel') (rd s') q' = Ok (Break s'')
                ∧ seen s'' = ([], Some io_EOF) ∧ rd s'' = rd s')
    ∧ Reset (rd s') = (rd s', Some io_EOF).
Proof.
  eexists.
  assert (H0 : Read 2 (Stored.fresh [(Stored.hi ++ [x00; x00; x00; x00] ++ Stored.hi,
                                       Some io_EOF)]) [x00]
               = Ok (Break ?[s0])) by (vm_compute; reflexivity).
  match type of H0 with _ = Ok (Break ?s) => set (s0 := s) in * end.
  destruct (next_stream_lost_after_EOF 0 (rd s0) buf8 4 xfd
              [x01; x48; x01; x69; x00])
    as (s' & H1 & H2 & H3 & H4 & H5 & H6).
  - vm_compute. repeat split; discriminate.
  - reflexivity.
  - reflexivity.
  - vm_compute. lia.
  - reflexivity.
  - reflexivity.
  - vm_compute. discriminate.
  - vm_compute. reflexivity.
  - reflexivity.
  - vm_compute. reflexivity.
  - discriminate.
  - exists s'.
    split; [exact H0 |]. split; [reflexivity |]. split; [reflexivity |].
    split; [reflexivity |]. split; [reflexivity |].
    split; [exact H1 |]. split; [exact H2 |]. split; [exact H3 |].
    split; [exact H4 |]. split; [exact H5 | exact H6].
Defined.

(** Two streams read one at a time, in single-stream mode: the first
    [Read] of one byte leaves the Reader in the padding; there the end
    of the stream finishes the decoder.  The finished Reader keeps
    returning [io.EOF].  In multistream mode the same point is where the
    reset decoder starts on the second stream. *)
Lemma single_stream_end_of_file_witness :
  ∃ s0 xa s1 x1 t0 xc,
    (* (a) *)
    Read 2 (Multistream false (Stored.fresh [(Stored.hi ++ Stored.hi, None)])) [x00]
    = Ok (Break s0)
    ∧ decode (rd s0) = Ok (xzStreamEnd, xa)
    ∧ Reader.dEOF (switchRet xzStreamEnd xa None).1 = true
    ∧ (switchRet xzStreamEnd xa None).2 = None
    (* (b) *)
    ∧ Read 3 (Multistream false (Stored.fresh [(Stored.hi ++ Stored.hi, None)])) buf8
      = Ok (Break s1)
    ∧ seen s1 = ([x48; x69], Some io_EOF)
    ∧ Reads 1 (rd s1) [buf8; buf8]
      = Some ([([], Some io_EOF); ([], Some io_EOF)], x1)
    ∧ Reader.dEOF x1 = true
    ∧ (∀ ok : bool, Reader.dEOF (Multistream ok x1) = true)
    (* (c) *)
    ∧ Read 2 (Stored.fresh [(Stored.hi ++ Stored.hi, None)]) [x00] = Ok (Break t0)
    ∧ decode (rd t0) = Ok (xzStreamEnd, xc)
    ∧ Reader.dEOF (switchRet xzStreamEnd xc None).1 = false
    ∧ Reader.padding (switchRet xzStreamEnd xc None).1 = -1
    ∧ Reader.dec (switchRet xzStreamEnd xc None).1 = xzDecReset (Reader.dec (rd t0))
    ∧ index (xzBuf.in_ (Reader.buf (switchRet xzStreamEnd xc None).1))
            (xzBuf.inPos (Reader.buf (switchRet xzStreamEnd xc None).1))
      = Some xfd.
Proof.
  destruct (single_stream_end_of_file (U := Script.t) (D := Stored.t))
    as (HA & HB & HC).
  eexists.
  assert (H0 : Read 2 (Multistream false
                         (Stored.fresh [(Stored.hi ++ Stored.hi, None)])) [x00]
               = Ok (Break ?[s0])) by (vm_compute; reflexivity).
  match type of H0 with _ = Ok (Break ?s) => set (s0 := s) in * end.
  eexists.
  assert (Ha : decode (rd s0) = Ok (xzStreamEnd, ?[xa])) by (vm_compute; reflexivity).
  match type of Ha with _ = Ok (_, ?x) => set (xa := x) in * end.
  destruct (HA (rd s0) xa) as [Ha1 Ha2];
    [reflexivity | vm_compute; discriminate
    | vm_compute; split; discriminate | vm_compute; reflexivity | exact Ha |].
  eexists.
  assert (H1 : Read 3 (Multistream false
                         (Stored.fresh [(Stored.hi ++ Stored.hi, None)])) buf8
               = Ok (Break ?[s1])) by (vm_compute; reflexivity).
  match type of H1 with _ = Ok (Break ?s) => set (s1 := s) in * end.
  destruct (HB (rd s1) 0%nat [buf8; buf8]) as (x1 & Hb1 & Hb2 & _ & Hb3);
    [vm_compute; repeat split; discriminate | reflexivity | reflexivity |].
  exists x1.
  eexists.
  assert (H2 : Read 2 (Stored.fresh [(Stored.hi ++ Stored.hi, None)]) [x00]
               = Ok (Break ?[t0])) by (vm_compute; reflexivity).
  match type of H2 with _ = Ok (Break ?s) => set (t0 := s) in * end.
  eexists.
  assert (Hc : decode (rd t0) = Ok (xzStreamEnd, ?[xc])) by (vm_compute; reflexivity).
  match type of Hc with _ = Ok (_, ?x) => set (xc := x) in * end.
  destruct (HC (rd t0) xc) as (Hc1 & Hc2 & Hc');
    [reflexivity | vm_compute; discriminate
    | vm_compute; split; discriminate | vm_compute; reflexivity | exact Hc |].
  destruct (Hc' (or_introl eq_refl)) as (Hc3 & (c & Hc4 & _) & _).
  split; [exact H0 |]. split; [exact Ha |]. split; [exact Ha1 |].
  split; [exact Ha2 |]. split; [exact H1 |]. split; [reflexivity |].
  split; [exact Hb1 |]. split; [exact Hb2 |]. split; [exact Hb3 |].
  split; [exact H2 |]. split; [exact Hc |]. split; [exact Hc1 |].
  split; [exact Hc2 |]. split; [exact Hc3 |].
  transitivity (Some c); [exact Hc4 |].
  vm_compute in Hc4. congruence.
Defined.

(** A stream of ["Hi"] whose end comes in the second upstream read, with
    four bytes of padding, a second stream of ["Hi"] and [io.EOF].  A
    first [Read] of one byte leaves the Reader in the stream with ["i"]
    pending.  The next [Read] delivers ["i"] and reports [io.EOF], with
    the second stream unread, and the Reader stays finished. *)
Lemma multistream_end_of_file_with_input_left_witness :
  ∃ s0 s',
    Read 2 (Stored.fresh [([xfd; x01; x48; x01; x69], None);
                          ([x00] ++ [x00; x00; x00; x00] ++ Stored.hi,
                           Some io_EOF)]) [x00]
    = Ok (Break s0)
    ∧ seen s0 = ([x48], None)
    ∧ Reader.multistream (rd s0) = true
    ∧ Reader.rEOF (rd s0) = false
    ∧ Reader.padding (rd s0) = -1
    ∧ Read 3 (rd s0) buf8 = Ok (Break s')
    ∧ seen s' = ([x69], Some io_EOF)
    ∧ Reader.multistream (rd s') = true
    ∧ Reader.dEOF (rd s') = true
    ∧ index (xzBuf.in_ (Reader.buf (rd s'))) (xzBuf.inPos (Reader.buf (rd s')))
      = Some xfd
    ∧ Reset (rd s') = (rd s', Some io_EOF)
    ∧ ∀ (ok : bool) (fuel' : nat) (q' : list byte),
        ∃ s'', Read (S fuel') (Multistream ok (rd s')) q' = Ok (Break s'')
               ∧ seen s'' = ([], Some io_EOF)
               ∧ rd s'' = Multistream ok (rd s').
Proof.
  eexists.
  assert (H0 : Read 2 (Stored.fresh [([xfd; x01; x48; x01; x69], None);
                                     ([x00] ++ [x00; x00; x00; x00] ++ Stored.hi,
                                      Some io_EOF)]) [x00]
               = Ok (Break ?[s0])) by (vm_compute; reflexivity).
  match type of H0 with _ = Ok (Break ?s) => set (s0 := s) in * end.
  assert (Hf : refill (rd s0) = Ok (inl ?[x1])) by (vm_compute; reflexivity).
  match type of Hf with _ = Ok (inl ?y) => set (x1 := y) in * end.
  assert (Hrun : xzDecRun (Reader.dec x1) (xzBuf.set_outPos 0 (Reader.buf x1))
                 = (xzStreamEnd, ?[d'], ?[b'])) by (vm_compute; reflexivity).
  match type of Hrun with _ = (_, ?d, ?b) => set (d' := d) in *; set (b' := b) in * end.
  destruct (multistream_end_of_file_with_input_left 0 (rd s0) x1 buf8 4 xfd
              [x01; x48; x01; x69; x00] d' b')
    as (s' & H1 & H2 & H3 & H4 & H5 & H6).
  - vm_compute. repeat split; discriminate.
  - reflexivity.
  - reflexivity.
  - reflexivity.
  - reflexivity.
  - exact Hf.
  - reflexivity.
  - exact Hrun.
  - vm_compute. repeat split; discriminate.
  - vm_compute. reflexivity.
  - reflexivity.
  - vm_compute. reflexivity.
  - discriminate.
  - vm_compute. lia.
  - exists s'.
    split; [exact H0 |]. split; [reflexivity |]. split; [reflexivity |].
    split; [reflexivity |]. split; [reflexivity |].
    split; [exact H1 |]. split; [exact H2 |].
    split; [exact (f_equal Reader.multistream H3) |].
    split; [exact (f_equal Reader.dEOF H3) |].
    split; [exact H4 |]. split; [exact H5 | exact H6].
Defined.


(** The end of the scenario: after [Reset] the second stream is read,
    and the next [Reset] finds the upstream exhausted. *)
Example two_streams_one_at_a_time :
  ∃ s0 s1,
    Read 3 (Multistream false (Stored.fresh [(Stored.hi ++ Stored.hi, None)])) buf8
    = Ok (Break s0)
    ∧ seen s0 = ([x48; x69], Some io_EOF)
    ∧ (Reset (rd s0)).2 = None
    ∧ Read 4 (Multistream false (Reset (rd s0)).1) buf8 = Ok (Break s1)
    ∧ seen s1 = ([x48; x69], Some io_EOF)
    ∧ (Reset (rd s1)).2 = Some io_EOF.
Proof.
  eexists _, _.
  split; [vm_compute; reflexivity |]. split; [reflexivity |].
  split; [reflexivity |]. split; [vm_compute; reflexivity |].
  split; reflexivity.
Qed.

(** The cap of 32 MiB of the package's memory-limit test, and the
    default one. *)
Lemma NewReader_spec_witness :
  (∃ x : Reader.t Script.t Stored.t,
     NewReader (Some []) (2 ^ 25) = (Some x, None)
     ∧ Reader.dec x = xzDecInit (2 ^ 25)
     ∧ Reader.multistream x = true)
  ∧ Stored.dictMax (Reader.dec (Stored.fresh [])) = 64 * 1024 * 1024.
Proof.
  destruct (NewReader_spec (U := Script.t) (D := Stored.t))
    as (_ & _ & H3 & _ & H5).
  split.
  - apply (H3 [] (2 ^ 25)). lia.
  - rewrite <- H5. reflexivity.
Defined.

(** A first [Read] of one byte leaves ["i"] pending and the input
    consumed; the upstream then fails: the next [Read] returns ["i"]
    and the failure, which it does not record. *)
Lemma upstream_error_is_returned_witness :
  ∃ s0 s',
    Read 2 (Stored.fresh [(Stored.hi, None); ([], Some (ErrForeign "timeout"))]) [x00]
    = Ok (Break s0)
    ∧ seen s0 = ([x48], None)
    ∧ Read 1 (rd s0) buf8 = Ok (Break s')
    ∧ seen s' = ([x69], Some (ErrForeign "timeout"))
    ∧ Reader.err (rd s') = None
    ∧ Reader.dec (rd s') = Reader.dec (rd s0).
Proof.
  eexists.
  assert (H0 : Read 2 (Stored.fresh [(Stored.hi, None);
                                      ([], Some (ErrForeign "timeout"))]) [x00]
               = Ok (Break ?[s0])) by (vm_compute; reflexivity).
  match type of H0 with _ = Ok (Break ?s) => set (s0 := s) in * end.
  pose proof (upstream_error_is_returned 0 (LState (rd s0) buf8 0 (Reader.err (rd s0)))
                [] (ErrForeign "timeout") []) as H.
  eexists. split; [exact H0 |]. split; [reflexivity |].
  split.
  - apply H.
    + vm_compute. repeat split; discriminate.
    + reflexivity.
    + reflexivity.
    + reflexivity.
    + reflexivity.
    + vm_compute. lia.
    + reflexivity.
    + discriminate.
  - split; [reflexivity |]. split; reflexivity.
Defined.

(** Two streams in two upstream reads, read in one call: the cursors
    stay in range at every turn. *)
Lemma cursors_stay_in_range_witness :
  Inv (Stored.fresh [(Stored.hi, None); (Stored.hi, None)])
  ∧ ∃ c,
      Read 4 (Stored.fresh [(Stored.hi, None); (Stored.hi, None)]) buf8 = Ok c
      ∧ Inv (rd (ctl_state c))
      ∧ 0 ≤ n (ctl_state c) ≤ len buf8
      ∧ len (p (ctl_state c)) = len buf8
      ∧ drop (Z.to_nat (n (ctl_state c))) (p (ctl_state c))
        = drop (Z.to_nat (n (ctl_state c))) buf8.
Proof.
  destruct (cursors_stay_in_range (U := Script.t) (D := Stored.t)
              Stored_contract Script_contract) as (H1 & H2 & _).
  assert (HI : Inv (Stored.fresh [(Stored.hi, None); (Stored.hi, None)]))
    by (eapply (H1 _ 0); apply fresh_NewReader).
  split; [exact HI |].
  apply H2. exact HI.
Defined.

(** C9 (as stated) fails: the cursors do move backward within a call.
    Between the first and the second turn of this [Read] the input
    buffer is replaced and [buf.inPos] goes from 6 to 0; between the
    second and the third the decoder is run again and [r.outPos] goes
    from 2 to 0. *)
Lemma cursors_are_reset :
  ∃ s1 s2 s3,
    Read 1 (Stored.fresh [(Stored.hi, None); (Stored.hi, None)]) buf8
    = Ok (Continue s1)
    ∧ Read 2 (Stored.fresh [(Stored.hi, None); (Stored.hi, None)]) buf8
      = Ok (Continue s2)
    ∧ Read 3 (Stored.fresh [(Stored.hi, None); (Stored.hi, None)]) buf8
      = Ok (Continue s3)
    ∧ xzBuf.inPos (Reader.buf (rd s1)) = 6
    ∧ xzBuf.inPos (Reader.buf (rd s2)) = 0
    ∧ Reader.outPos (rd s2) = 2
    ∧ Reader.outPos (rd s3) = 0
    ∧ ¬ (xzBuf.inPos (Reader.buf (rd s1)) ≤ xzBuf.inPos (Reader.buf (rd s2)))
    ∧ ¬ (Reader.outPos (rd s2) ≤ Reader.outPos (rd s3)).
Proof.
  eexists _, _, _.
  split; [vm_compute; reflexivity |].
  split; [vm_compute; reflexivity |].
  split; [vm_compute; reflexivity |].
  repeat split; try reflexivity; vm_compute; intros H; by apply H.
Qed.

(** A new Reader has not finished: [Reset] does nothing. *)
Lemma Reset_frame_witness :
  Reader.dEOF (Stored.fresh []) = false
  ∧ Reset (Stored.fresh []) = (Stored.fresh [], None).
Proof.
  split; [reflexivity |].
  apply (Reset_frame (Stored.fresh [])). reflexivity.
Defined.

End Examples.
